(** * genasmdb: extraction of the embedded JSON payload and its mapping

    A shallow embedding of [internal/genasmdb/x86.go]: the marker-delimited
    extractor [parse] and the pipeline [gen] which decodes the payload into
    the [X86] record and derives the list of [X86Instruction]. *)

From Stdlib Require Import ZArith Lia Strings.Byte String.
From stdpp Require Import base list strings gmap.

Local Open Scope Z_scope.

(** ** Bytes *)

Abbreviation bytes := (list byte).

#[global] Instance byte_eq_dec : EqDecision byte := Byte.byte_eq_dec.

(** [[]byte(s)] for a string constant. *)
Definition bytes_of (s : string) : bytes := list_byte_of_string s.

(** Go's [len], an [int]. *)
Definition len {A} (l : list A) : Z := Z.of_nat (length l).

(** ** Outcomes of Go code: a value, an error, or a run-time panic *)

Inductive outcome (E A : Type) : Type :=
| Ret (a : A)
| Fail (e : E)
| Panic.
Arguments Ret {E A} a.
Arguments Fail {E A} e.
Arguments Panic {E A}.

#[global] Instance outcome_ret {E} : MRet (outcome E) := fun A a => Ret a.

#[global] Instance outcome_bind {E} : MBind (outcome E) := fun A B k m =>
  match m with
  | Ret a => k a
  | Fail e => Fail e
  | Panic => Panic
  end.

(** A Go bounds check: [None] is the run-time panic. *)
Definition checked {E A} (o : option A) : outcome E A :=
  match o with
  | Some a => Ret a
  | None => Panic
  end.

(** [s[lo:]]: panics unless [0 <= lo <= len(s)]. *)
Definition slice_from {A} (s : list A) (lo : Z) : option (list A) :=
  if (0 <=? lo) && (lo <=? len s) then Some (drop (Z.to_nat lo) s) else None.

(** [s[:hi]]: panics unless [0 <= hi <= cap(s)]; the check here is against
    [len(s)], which [cap(s)] is not below. *)
Definition slice_to {A} (s : list A) (hi : Z) : option (list A) :=
  if (0 <=? hi) && (hi <=? len s) then Some (take (Z.to_nat hi) s) else None.

(** [s[i]]: panics unless [0 <= i < len(s)]. *)
Definition index_at {A} (s : list A) (i : Z) : option A :=
  if 0 <=? i then s !! Z.to_nat i else None.

(** ** The package [bytes] as [parse] uses it *)

(** [bytes.HasPrefix]. *)
Fixpoint HasPrefix (s prefix : bytes) {struct prefix} : bool :=
  match prefix, s with
  | [], _ => true
  | _ :: _, [] => false
  | p :: prefix', c :: s' => if decide (p = c) then HasPrefix s' prefix' else false
  end.

(** [bytes.Index]: the index of the first instance of [sep] in [s],
    or [-1] when [sep] is not present in [s]. *)
Fixpoint Index (s sep : bytes) : Z :=
  if HasPrefix s sep then 0
  else match s with
       | [] => -1
       | _ :: s' => let i := Index s' sep in if i <? 0 then -1 else i + 1
       end.

(** [bytes.Contains]. *)
Definition Contains (s sep : bytes) : bool := negb (Index s sep =? -1).

(** The last byte of [sep] occurs nowhere else in [sep]: such a separator
    cannot overlap an instance of itself. *)
Definition last_unique (sep : bytes) : bool :=
  match reverse sep with
  | [] => false
  | c :: rest => bool_decide (c ∉ rest)
  end.

(** The loop of [genSplit]: cut at most [k] times at the next instance of
    [sep]; the last piece is what remains. *)
Fixpoint split_loop (k : nat) (s sep : bytes) : list bytes :=
  match k with
  | O => [s]
  | S k' =>
      let m := Index s sep in
      if m <? 0 then [s]
      else take (Z.to_nat m) s :: split_loop k' (drop (Z.to_nat (m + len sep)) s) sep
  end.

(** [bytes.SplitN(s, sep, n)] for a non-empty [sep] (the call in [parse]
    passes the begin marker): [n = 0] gives nil, [n < 0] all pieces, and
    [n > 0] at most [n] pieces, [n] being capped by [len(s)+1]. *)
Definition SplitN (s sep : bytes) (n : Z) : list bytes :=
  if n =? 0 then []
  else
    let n := if n <? 0 then len s + 1 else n in
    let n := if len s + 1 <? n then len s + 1 else n in
    split_loop (Z.to_nat (n - 1)) s sep.

(** ** The markers *)

(** [markJSONBegin]. *)
Definition markJSONBegin : string := "// ${JSON:BEGIN}".

(** [markJSONEnd]. *)
Definition markJSONEnd : string := "// ${JSON:END}".

(** ** [parse] *)

(** What [io.ReadAll] gives for a reader: the bytes read and the error, if any. *)
Record Reader : Type := mkReader {
  ReadAll_buf : bytes;
  ReadAll_err : option string
}.

Definition ReadAll (r : Reader) : bytes * option string :=
  (ReadAll_buf r, ReadAll_err r).

(** The four [fmt.Errorf] of [parse], with the values they format. *)
Inductive parse_error : Type :=
| ErrReadAll (err : string)
    (* "read r reader: %w" *)
| ErrSplit (marker : string) (splitted_length : Z)
    (* "could not split asmdb data by %q magic comment: splitted length: %d" *)
| ErrDataLength (data_length : Z)
    (* "incorrect splitted asmdb data: data length: %d" *)
| ErrFind (marker : string) (data : bytes).
    (* "could not find %q magic comment from asmdb data: %s" *)

(** [parse] after [io.ReadAll] has returned [buf]. *)
Definition parse_buf (buf : bytes) : outcome parse_error bytes :=
  let splitted := SplitN buf (bytes_of markJSONBegin) 2 in
  if len splitted <=? 1 then Fail (ErrSplit markJSONBegin (len splitted))
  else
    data ← checked (index_at splitted 1);
    if len data =? 0 then Fail (ErrDataLength (len data))
    else
      data ← checked (slice_from data 1);
      let idx := Index data (bytes_of markJSONEnd) in
      if idx <=? 0 then Fail (ErrFind markJSONEnd data)
      else
        data ← checked (slice_to data (idx - 1));
        mret data.

Definition parse (r : Reader) : outcome parse_error bytes :=
  let '(buf, err) := ReadAll r in
  match err with
  | Some e => Fail (ErrReadAll e)
  | None => parse_buf buf
  end.

(** A reader over a byte string, which reads without error. *)
Definition NewReader (buf : bytes) : Reader := mkReader buf None.

(** ** Error kinds of the specification *)

Inductive marker : Type := MarkBegin | MarkEnd.

Inductive ErrorKind : Type :=
| ResourceReadError
| MarkerNotFound (m : marker)
| EmptyPayload
| SchemaMismatch
| MalformedInstructionTuple.

Definition parse_error_kind (e : parse_error) : ErrorKind :=
  match e with
  | ErrReadAll _ => ResourceReadError
  | ErrSplit _ _ => MarkerNotFound MarkBegin
  | ErrDataLength _ => EmptyPayload
  | ErrFind _ _ => MarkerNotFound MarkEnd
  end.

(** The newline byte. *)
Definition nl : byte := x0a.

(** ** The record types of [x86.go] *)

(** A Go slice: nil, or a sequence of elements. *)
Inductive slice (A : Type) : Type :=
| nil_slice
| Slice (l : list A).
Arguments nil_slice {A}.
Arguments Slice {A} l.

Definition elems {A} (s : slice A) : list A :=
  match s with
  | nil_slice => []
  | Slice l => l
  end.

(** A Go pointer [*T] to a value of its own: nil or the value pointed to. *)
Abbreviation ptr := option.

(** The array type [[5]T]. *)
Record array5 (A : Type) : Type := Array5 {
  elem0 : A; elem1 : A; elem2 : A; elem3 : A; elem4 : A
}.
Arguments Array5 {A}.
Arguments elem0 {A}.
Arguments elem1 {A}.
Arguments elem2 {A}.
Arguments elem3 {A}.
Arguments elem4 {A}.

Definition array5_list {A} (a : array5 A) : list A :=
  [elem0 a; elem1 a; elem2 a; elem3 a; elem4 a].

Module X86Extension.
Record t : Type := mk { Name : string }.
End X86Extension.

Module X86Attribute.
Record t : Type := mk { Name : string; Type_ : string; Doc : string }.
End X86Attribute.

Module X86SpecialReg.
Record t : Type := mk { Name : string; Group : string; Doc : string }.
End X86SpecialReg.

Module X86Shortcut.
Record t : Type := mk { Name : string; Expand : string }.
End X86Shortcut.

Module X86RegisterData.
Record t : Type := mk { Names : slice string; Kind : string; Any : string }.
End X86RegisterData.

Module X86Register.
Record t : Type := mk {
  Bnd : ptr X86RegisterData.t;
  Creg : ptr X86RegisterData.t;
  Dreg : ptr X86RegisterData.t;
  K : ptr X86RegisterData.t;
  Mm : ptr X86RegisterData.t;
  R16 : ptr X86RegisterData.t;
  R32 : ptr X86RegisterData.t;
  R64 : ptr X86RegisterData.t;
  R8 : ptr X86RegisterData.t;
  R8hi : ptr X86RegisterData.t;
  Rxx : ptr X86RegisterData.t;
  Sreg : ptr X86RegisterData.t;
  St : ptr X86RegisterData.t;
  Tmm : ptr X86RegisterData.t;
  Xmm : ptr X86RegisterData.t;
  Ymm : ptr X86RegisterData.t;
  Zmm : ptr X86RegisterData.t
}.
End X86Register.

Module X86.
Record t : Type := mk {
  Architectures : slice string;
  Extensions : slice (ptr X86Extension.t);
  Attributes : slice (ptr X86Attribute.t);
  SpecialRegs : slice (ptr X86SpecialReg.t);
  Shortcuts : slice (ptr X86Shortcut.t);
  Register : ptr X86Register.t;
  Instructions : slice (array5 string)
}.

(** [x.Instructions = v]. *)
Definition set_Instructions (v : slice (array5 string)) (x : t) : t :=
  mk (Architectures x) (Extensions x) (Attributes x) (SpecialRegs x)
     (Shortcuts x) (Register x) v.
End X86.

Module X86Instruction.
Record t : Type := mk {
  Name : string;
  Operands : string;
  Encoding : string;
  OpCode : string;
  Metadata : string
}.

(** The zero value, as [make] fills a new slice with. *)
Definition zero : t := mk "" "" "" "" "".

Definition set_Name (v : string) (x : t) : t :=
  mk v (Operands x) (Encoding x) (OpCode x) (Metadata x).
Definition set_Operands (v : string) (x : t) : t :=
  mk (Name x) v (Encoding x) (OpCode x) (Metadata x).
Definition set_Encoding (v : string) (x : t) : t :=
  mk (Name x) (Operands x) v (OpCode x) (Metadata x).
Definition set_OpCode (v : string) (x : t) : t :=
  mk (Name x) (Operands x) (Encoding x) v (Metadata x).
Definition set_Metadata (v : string) (x : t) : t :=
  mk (Name x) (Operands x) (Encoding x) (OpCode x) v.
End X86Instruction.

(** ** JSON values and [json.Unmarshal] on the types above

    [gen] decodes with [json.Unmarshal] of go-json-experiment/json. The
    package is a dependency: what follows models its default behaviour on
    the types declared in [x86.go], which the struct tags select. A JSON
    text is first read as a value (syntax, which also rejects a name
    repeated within an object, so that an object is a finite map from names
    to values); the value is then decoded into the Go type:
    - a Go string from a JSON string;
    - a slice from a JSON array, element by element;
    - an array [[5]T] from a JSON array of exactly five elements;
    - a pointer from the value its element type decodes from, newly allocated;
    - a struct from a JSON object: each member whose name equals the JSON
      name of a field is decoded into that field, other members are skipped,
      and a field without a member keeps its value;
    - JSON null gives the zero value of any of these types;
    - any other JSON kind is an error.
    Of several errors in one value the decoder reports the first in the
    order of the text; here it is the first in the order of the fields. *)

#[warnings="-register-all"]
Inductive json : Type :=
| JNull
| JBool (b : bool)
| JNumber (n : string)
| JString (s : string)
| JArray (l : list json)
| JObject (members : gmap string json).

Inductive Kind : Type := KNull | KBool | KNumber | KString | KArray | KObject.

Definition kind_of (j : json) : Kind :=
  match j with
  | JNull => KNull
  | JBool _ => KBool
  | JNumber _ => KNumber
  | JString _ => KString
  | JArray _ => KArray
  | JObject _ => KObject
  end.

(** The errors of [json.Unmarshal]. *)
Inductive json_error : Type :=
| SyntacticError (msg : string)
| SemanticError (GoType : string) (JSONKind : Kind) (Err : string).

(** How a Go type is decoded, and its zero value. *)
Class Unmarshaler (T : Type) : Type := {
  type_name : string;
  zero : T;
  unmarshal : json -> outcome json_error T
}.
Arguments type_name T {_}.
Arguments zero T {_}.

Definition type_error {T} `{Unmarshaler T} (j : json) : outcome json_error T :=
  Fail (SemanticError (type_name T) (kind_of j) "").

#[global] Instance string_unmarshaler : Unmarshaler string := {|
  type_name := "string";
  zero := "";
  unmarshal j :=
    match j with
    | JNull => Ret ""
    | JString s => Ret s
    | _ => Fail (SemanticError "string" (kind_of j) "")
    end
|}.

(** The elements of a JSON array, decoded in turn. *)
Fixpoint unmarshal_elems {T} `{Unmarshaler T} (l : list json) : outcome json_error (list T) :=
  match l with
  | [] => Ret []
  | j :: l' =>
      v ← unmarshal j;
      vs ← unmarshal_elems l';
      mret (v :: vs)
  end.

#[global] Instance slice_unmarshaler {T} `{Unmarshaler T} : Unmarshaler (slice T) := {|
  type_name := "[]" +:+ type_name T;
  zero := nil_slice;
  unmarshal j :=
    match j with
    | JNull => Ret nil_slice
    | JArray l => vs ← unmarshal_elems l; mret (Slice vs)
    | _ => Fail (SemanticError ("[]" +:+ type_name T) (kind_of j) "")
    end
|}.

#[global] Instance ptr_unmarshaler {T} `{Unmarshaler T} : Unmarshaler (ptr T) := {|
  type_name := "*" +:+ type_name T;
  zero := None;
  unmarshal j :=
    match j with
    | JNull => Ret None
    | _ => v ← unmarshal j; mret (Some v)
    end
|}.

#[global] Instance array5_unmarshaler {T} `{Unmarshaler T} : Unmarshaler (array5 T) := {|
  type_name := "[5]" +:+ type_name T;
  zero := Array5 (zero T) (zero T) (zero T) (zero T) (zero T);
  unmarshal j :=
    match j with
    | JNull => Ret (Array5 (zero T) (zero T) (zero T) (zero T) (zero T))
    | JArray l =>
        match l with
        | [j0; j1; j2; j3; j4] =>
            v0 ← unmarshal j0;
            v1 ← unmarshal j1;
            v2 ← unmarshal j2;
            v3 ← unmarshal j3;
            v4 ← unmarshal j4;
            mret (Array5 v0 v1 v2 v3 v4)
        | _ =>
            vs ← unmarshal_elems (T:=T) (take 5 l);
            Fail (SemanticError ("[5]" +:+ type_name T) KArray
                    (if decide (length l < 5)%nat then "too few array elements"
                     else "too many array elements"))
        end
    | _ => Fail (SemanticError ("[5]" +:+ type_name T) (kind_of j) "")
    end
|}.

(** The member named [name] decoded into a field, which otherwise keeps
    its zero value. *)
Definition field {T} `{Unmarshaler T} (members : gmap string json) (name : string)
  : outcome json_error T :=
  match members !! name with
  | None => Ret (zero T)
  | Some j => unmarshal j
  end.

#[global] Instance X86Extension_unmarshaler : Unmarshaler X86Extension.t := {|
  type_name := "main.X86Extension";
  zero := X86Extension.mk "";
  unmarshal j :=
    match j with
    | JNull => Ret (X86Extension.mk "")
    | JObject m =>
        name ← field m "name";
        mret (X86Extension.mk name)
    | _ => Fail (SemanticError "main.X86Extension" (kind_of j) "")
    end
|}.

#[global] Instance X86Attribute_unmarshaler : Unmarshaler X86Attribute.t := {|
  type_name := "main.X86Attribute";
  zero := X86Attribute.mk "" "" "";
  unmarshal j :=
    match j with
    | JNull => Ret (X86Attribute.mk "" "" "")
    | JObject m =>
        name ← field m "name";
        type ← field m "type";
        doc ← field m "doc";
        mret (X86Attribute.mk name type doc)
    | _ => Fail (SemanticError "main.X86Attribute" (kind_of j) "")
    end
|}.

#[global] Instance X86SpecialReg_unmarshaler : Unmarshaler X86SpecialReg.t := {|
  type_name := "main.X86SpecialReg";
  zero := X86SpecialReg.mk "" "" "";
  unmarshal j :=
    match j with
    | JNull => Ret (X86SpecialReg.mk "" "" "")
    | JObject m =>
        name ← field m "name";
        group ← field m "group";
        doc ← field m "doc";
        mret (X86SpecialReg.mk name group doc)
    | _ => Fail (SemanticError "main.X86SpecialReg" (kind_of j) "")
    end
|}.

#[global] Instance X86Shortcut_unmarshaler : Unmarshaler X86Shortcut.t := {|
  type_name := "main.X86Shortcut";
  zero := X86Shortcut.mk "" "";
  unmarshal j :=
    match j with
    | JNull => Ret (X86Shortcut.mk "" "")
    | JObject m =>
        name ← field m "name";
        expand ← field m "expand";
        mret (X86Shortcut.mk name expand)
    | _ => Fail (SemanticError "main.X86Shortcut" (kind_of j) "")
    end
|}.

#[global] Instance X86RegisterData_unmarshaler : Unmarshaler X86RegisterData.t := {|
  type_name := "main.X86RegisterData";
  zero := X86RegisterData.mk nil_slice "" "";
  unmarshal j :=
    match j with
    | JNull => Ret (X86RegisterData.mk nil_slice "" "")
    | JObject m =>
        names ← field m "names";
        kind ← field m "kind";
        any ← field m "any";
        mret (X86RegisterData.mk names kind any)
    | _ => Fail (SemanticError "main.X86RegisterData" (kind_of j) "")
    end
|}.

Definition X86Register_zero : X86Register.t :=
  X86Register.mk None None None None None None None None None
                 None None None None None None None None.

#[global] Instance X86Register_unmarshaler : Unmarshaler X86Register.t := {|
  type_name := "main.X86Register";
  zero := X86Register_zero;
  unmarshal j :=
    match j with
    | JNull => Ret X86Register_zero
    | JObject m =>
        bnd ← field m "bnd";
        creg ← field m "creg";
        dreg ← field m "dreg";
        k ← field m "k";
        mm ← field m "mm";
        r16 ← field m "r16";
        r32 ← field m "r32";
        r64 ← field m "r64";
        r8 ← field m "r8";
        r8hi ← field m "r8hi";
        rxx ← field m "rxx";
        sreg ← field m "sreg";
        st ← field m "st";
        tmm ← field m "tmm";
        xmm ← field m "xmm";
        ymm ← field m "ymm";
        zmm ← field m "zmm";
        mret (X86Register.mk bnd creg dreg k mm r16 r32 r64 r8 r8hi rxx sreg st
                             tmm xmm ymm zmm)
    | _ => Fail (SemanticError "main.X86Register" (kind_of j) "")
    end
|}.

Definition X86_zero : X86.t :=
  X86.mk nil_slice nil_slice nil_slice nil_slice nil_slice None nil_slice.

#[global] Instance X86_unmarshaler : Unmarshaler X86.t := {|
  type_name := "main.X86";
  zero := X86_zero;
  unmarshal j :=
    match j with
    | JNull => Ret X86_zero
    | JObject m =>
        architectures ← field m "architectures";
        extensions ← field m "extensions";
        attributes ← field m "attributes";
        specialRegs ← field m "specialRegs";
        shortcuts ← field m "shortcuts";
        registers ← field m "registers";
        instructions ← field m "instructions";
        mret (X86.mk architectures extensions attributes specialRegs shortcuts
                     registers instructions)
    | _ => Fail (SemanticError "main.X86" (kind_of j) "")
    end
|}.

(** ** [gen] *)

(** [asmdbX86DataJS]. *)
Definition asmdbX86DataJS : string := "asmdb/x86data.js".

(** An [embed.FS]: what [Open] gives for a path, an error or a file to read. *)
Definition FS : Type := string -> string + Reader.

(** The three [fmt.Errorf] of [gen]. *)
Inductive gen_error : Type :=
| ErrOpen (path : string) (err : string)
    (* "read %s embeded file: %w" *)
| ErrParse (err : parse_error)
    (* "parse asmdb data: %w" *)
| ErrUnmarshal (err : json_error).
    (* "unmarshal X86: %w" *)

Definition gen_error_kind (e : gen_error) : ErrorKind :=
  match e with
  | ErrOpen _ _ => ResourceReadError
  | ErrParse e => parse_error_kind e
  | ErrUnmarshal _ => SchemaMismatch
  end.

(** An error of a callee, wrapped. *)
Definition wrap {E E' A} (f : E -> E') (m : outcome E A) : outcome E' A :=
  match m with
  | Ret a => Ret a
  | Fail e => Fail (f e)
  | Panic => Panic
  end.

(** [s[i].f = v] through [set]: panics unless [i < len(s)]. *)
Definition assign_at {E A} (s : list A) (i : nat) (set : A -> A) : outcome E (list A) :=
  if decide (i < length s)%nat then Ret (alter set i s) else Panic.

(** The [range] loop of [gen], from index [i] on. *)
Fixpoint range_instructions (i : nat) (instructions : list (array5 string))
    (insts : list X86Instruction.t) : outcome gen_error (list X86Instruction.t) :=
  match instructions with
  | [] => Ret insts
  | inst :: instructions' =>
      insts ← assign_at insts i (X86Instruction.set_Name (elem0 inst));
      insts ← assign_at insts i (X86Instruction.set_Operands (elem1 inst));
      insts ← assign_at insts i (X86Instruction.set_Encoding (elem2 inst));
      insts ← assign_at insts i (X86Instruction.set_OpCode (elem3 inst));
      insts ← assign_at insts i (X86Instruction.set_Metadata (elem4 inst));
      range_instructions (S i) instructions' insts
  end.

(** What [gen] prints: the record, its instruction list cleared, and the
    derived instructions. *)
Record printed : Type := mkPrinted {
  printed_x86Asm : X86.t;
  printed_insts : list X86Instruction.t
}.

(** [gen] from the decoded record on: lines 212 to 228. *)
Definition gen_derive (x86Asm : X86.t) : outcome gen_error printed :=
  let instructions := X86.Instructions x86Asm in
  let x86Asm := X86.set_Instructions nil_slice x86Asm in
  let insts := replicate (length (elems instructions)) X86Instruction.zero in
  insts ← range_instructions 0 (elems instructions) insts;
  mret (mkPrinted x86Asm insts).

(** [gen] from the JSON value on, once the text of the payload is read. *)
Definition gen_value (j : json) : outcome gen_error printed :=
  x86Asm ← wrap ErrUnmarshal (unmarshal j);
  gen_derive x86Asm.

Section Gen.
(** The embedded file system and the reading of a JSON text as a value
    are given from outside. *)
Variable asmdbX86 : FS.
Variable ReadValue : bytes -> string + json.

Definition gen : outcome gen_error printed :=
  match asmdbX86 asmdbX86DataJS with
  | inl err => Fail (ErrOpen asmdbX86DataJS err)
  | inr fsX86 =>
      x86AsmData ← wrap ErrParse (parse fsX86);
      match ReadValue x86AsmData with
      | inl msg => Fail (ErrUnmarshal (SyntacticError msg))
      | inr j => gen_value j
      end
  end.
End Gen.

(** ** The shape of the records, stated on JSON values *)

Definition is_Ret {E A} (m : outcome E A) : bool :=
  match m with
  | Ret _ => true
  | _ => false
  end.

(** For a Go type, [accepts j] says that the JSON value [j] has the shape
    of the type (null standing for any value, and no member being
    required), and [represents j x] that [j] is the value [x] written in
    JSON: the same strings, the same elements in the same order, and every
    field equal to the member of its name, or zero without one. *)
Class Shape (T : Type) : Type := {
  accepts : json -> bool;
  represents : json -> T -> Prop
}.
Arguments accepts T {_} j.

(** A member, if present, has the shape of the field's type. *)
Definition member_ok T `{Shape T} (members : gmap string json) (name : string) : bool :=
  match members !! name with
  | None => true
  | Some j => accepts T j
  end.

(** A member, if present, represents the field; without it the field is zero. *)
Definition member {T} `{Unmarshaler T} `{Shape T}
    (members : gmap string json) (name : string) (v : T) : Prop :=
  match members !! name with
  | None => v = zero T
  | Some j => represents j v
  end.

#[global] Instance string_shape : Shape string := {|
  accepts j := match j with JNull | JString _ => true | _ => false end;
  represents j s := j = JString s
|}.

#[global] Instance slice_shape {T} `{Shape T} : Shape (slice T) := {|
  accepts j :=
    match j with
    | JNull => true
    | JArray l => forallb (accepts T) l
    | _ => false
    end;
  represents j s :=
    match j, s with
    | JArray l, Slice vs => Forall2 represents l vs
    | _, _ => False
    end
|}.

#[global] Instance ptr_shape {T} `{Shape T} : Shape (ptr T) := {|
  accepts j := match j with JNull => true | _ => accepts T j end;
  represents j p :=
    match j, p with
    | JNull, _ => False
    | _, Some v => represents j v
    | _, None => False
    end
|}.

#[global] Instance array5_shape {T} `{Shape T} : Shape (array5 T) := {|
  accepts j :=
    match j with
    | JNull => true
    | JArray l => bool_decide (length l = 5%nat) && forallb (accepts T) l
    | _ => false
    end;
  represents j a :=
    match j with
    | JArray l => Forall2 represents l (array5_list a)
    | _ => False
    end
|}.

#[global] Instance X86Extension_shape : Shape X86Extension.t := {|
  accepts j :=
    match j with
    | JNull => true
    | JObject m => member_ok string m "name"
    | _ => false
    end;
  represents j x :=
    match j with
    | JObject m => member m "name" (X86Extension.Name x)
    | _ => False
    end
|}.

#[global] Instance X86Attribute_shape : Shape X86Attribute.t := {|
  accepts j :=
    match j with
    | JNull => true
    | JObject m =>
        member_ok string m "name" && member_ok string m "type" &&
        member_ok string m "doc"
    | _ => false
    end;
  represents j x :=
    match j with
    | JObject m =>
        member m "name" (X86Attribute.Name x) /\
        member m "type" (X86Attribute.Type_ x) /\
        member m "doc" (X86Attribute.Doc x)
    | _ => False
    end
|}.

#[global] Instance X86SpecialReg_shape : Shape X86SpecialReg.t := {|
  accepts j :=
    match j with
    | JNull => true
    | JObject m =>
        member_ok string m "name" && member_ok string m "group" &&
        member_ok string m "doc"
    | _ => false
    end;
  represents j x :=
    match j with
    | JObject m =>
        member m "name" (X86SpecialReg.Name x) /\
        member m "group" (X86SpecialReg.Group x) /\
        member m "doc" (X86SpecialReg.Doc x)
    | _ => False
    end
|}.

#[global] Instance X86Shortcut_shape : Shape X86Shortcut.t := {|
  accepts j :=
    match j with
    | JNull => true
    | JObject m => member_ok string m "name" && member_ok string m "expand"
    | _ => false
    end;
  represents j x :=
    match j with
    | JObject m =>
        member m "name" (X86Shortcut.Name x) /\
        member m "expand" (X86Shortcut.Expand x)
    | _ => False
    end
|}.

#[global] Instance X86RegisterData_shape : Shape X86RegisterData.t := {|
  accepts j :=
    match j with
    | JNull => true
    | JObject m =>
        member_ok (slice string) m "names" && member_ok string m "kind" &&
        member_ok string m "any"
    | _ => false
    end;
  represents j x :=
    match j with
    | JObject m =>
        member m "names" (X86RegisterData.Names x) /\
        member m "kind" (X86RegisterData.Kind x) /\
        member m "any" (X86RegisterData.Any x)
    | _ => False
    end
|}.

(** The names of the register classes, in the order of the fields. *)
Definition register_classes : list string :=
  ["bnd"; "creg"; "dreg"; "k"; "mm"; "r16"; "r32"; "r64"; "r8"; "r8hi";
   "rxx"; "sreg"; "st"; "tmm"; "xmm"; "ymm"; "zmm"]%string.

(** The fields of an [X86Register], in the same order. *)
Definition register_fields (x : X86Register.t) : list (ptr X86RegisterData.t) :=
  [X86Register.Bnd x; X86Register.Creg x; X86Register.Dreg x; X86Register.K x;
   X86Register.Mm x; X86Register.R16 x; X86Register.R32 x; X86Register.R64 x;
   X86Register.R8 x; X86Register.R8hi x; X86Register.Rxx x; X86Register.Sreg x;
   X86Register.St x; X86Register.Tmm x; X86Register.Xmm x; X86Register.Ymm x;
   X86Register.Zmm x].

#[global] Instance X86Register_shape : Shape X86Register.t := {|
  accepts j :=
    match j with
    | JNull => true
    | JObject m => forallb (member_ok (ptr X86RegisterData.t) m) register_classes
    | _ => false
    end;
  represents j x :=
    match j with
    | JObject m => Forall2 (member m) register_classes (register_fields x)
    | _ => False
    end
|}.

#[global] Instance X86_shape : Shape X86.t := {|
  accepts j :=
    match j with
    | JNull => true
    | JObject m =>
        member_ok (slice string) m "architectures" &&
        member_ok (slice (ptr X86Extension.t)) m "extensions" &&
        member_ok (slice (ptr X86Attribute.t)) m "attributes" &&
        member_ok (slice (ptr X86SpecialReg.t)) m "specialRegs" &&
        member_ok (slice (ptr X86Shortcut.t)) m "shortcuts" &&
        member_ok (ptr X86Register.t) m "registers" &&
        member_ok (slice (array5 string)) m "instructions"
    | _ => false
    end;
  represents j x :=
    match j with
    | JObject m =>
        member m "architectures" (X86.Architectures x) /\
        member m "extensions" (X86.Extensions x) /\
        member m "attributes" (X86.Attributes x) /\
        member m "specialRegs" (X86.SpecialRegs x) /\
        member m "shortcuts" (X86.Shortcuts x) /\
        member m "registers" (X86.Register x) /\
        member m "instructions" (X86.Instructions x)
    | _ => False
    end
|}.

(** The laws a decoder satisfies with respect to the shape of its type. *)
Class UnmarshalerLaws (T : Type) `{Unmarshaler T} `{Shape T} : Prop := {
  unmarshal_accepts (j : json) : is_Ret (unmarshal (T:=T) j) = accepts T j;
  unmarshal_no_panic (j : json) : unmarshal (T:=T) j ≠ Panic;
  unmarshal_represents (j : json) (x : T) : represents j x -> unmarshal j = Ret x
}.

(** The mapping of a raw tuple as the specification states it:
    0 = name, 1 = operands, 2 = encoding, 3 = opcode, 4 = metadata. *)
Definition Instruction_of_tuple (inst : array5 string) : X86Instruction.t :=
  X86Instruction.mk (elem0 inst) (elem1 inst) (elem2 inst) (elem3 inst) (elem4 inst).

(** ** Payloads used as examples *)

(** The payload of the end-to-end scenario of the specification. *)
Definition scenario_json : json :=
  JObject (<["architectures" := JArray [JString "X86"]]>
            {["instructions" :=
                JArray [JArray [JString "mov"; JString "r,r"; JString "RM";
                                JString "0x89"; JString ""]]]}).

(** The record it is decoded into. *)
Definition scenario_x86 : X86.t :=
  X86.mk (Slice ["X86"%string]) nil_slice nil_slice nil_slice nil_slice None
         (Slice [Array5 "mov" "r,r" "RM" "0x89" ""]%string).

(** A payload without instructions. *)
Definition no_instructions_json : json :=
  JObject {["architectures" := JArray [JString "X86"]]}.

(** A payload whose only instruction tuple has four elements. *)
Definition tuple4_json : json :=
  JObject {["instructions" :=
              JArray [JArray [JString "mov"; JString "r,r"; JString "RM";
                              JString "0x89"]]]}.

(** A payload whose only instruction tuple has six elements. *)
Definition tuple6_json : json :=
  JObject {["instructions" :=
              JArray [JArray [JString "mov"; JString "r,r"; JString "RM";
                              JString "0x89"; JString ""; JString "extra"]]]}.

(** ** [main] *)

(** The exit status of the process: 0 when [gen] returns nil, 1 when
    [log.Fatal] reports its error, 2 when the run time panics. *)
Definition main (asmdbX86 : FS) (ReadValue : bytes -> string + json) : Z :=
  match gen asmdbX86 ReadValue with
  | Ret _ => 0
  | Fail _ => 1
  | Panic => 2
  end.

(** The JSON names of the fields of [X86], as its struct tags give them. *)
Definition X86_names : list string :=
  ["architectures"; "extensions"; "attributes"; "specialRegs"; "shortcuts";
   "registers"; "instructions"]%string.

(** * Properties *)

Example parse_fixture :
  parse (NewReader (bytes_of "prefix" ++ nl :: bytes_of markJSONBegin ++ nl ::
                    bytes_of "{}" ++ nl :: bytes_of markJSONEnd ++ nl :: bytes_of "suffix"))
  = Ret (bytes_of "{}").
Proof. vm_compute. reflexivity. Qed.

(** ** [bytes.Index] finds the first instance *)

Section IndexFacts.
Implicit Types s sep x r : bytes.

Lemma len_nil {A} : len (@nil A) = 0.
Proof. reflexivity. Qed.

Lemma len_cons {A} (a : A) l : len (a :: l) = len l + 1.
Proof. unfold len. simpl. lia. Qed.

Lemma len_app {A} (l k : list A) : len (l ++ k) = len l + len k.
Proof. unfold len. rewrite length_app. lia. Qed.

Lemma len_nonneg {A} (l : list A) : 0 <= len l.
Proof. unfold len. lia. Qed.

Lemma HasPrefix_true s sep : HasPrefix s sep = true <-> exists r, s = sep ++ r.
Proof.
  revert s. induction sep as [|p sep IH]; intros s; simpl.
  - split; eauto.
  - destruct s as [|c s].
    + split; [discriminate | intros [r Hr]; discriminate].
    + destruct (decide (p = c)) as [->|Hne].
      * rewrite IH. split; intros [r Hr]; exists r; simpl in *; congruence.
      * split; [discriminate | intros [r Hr]; simpl in Hr; congruence].
Qed.

Lemma HasPrefix_app sep r : HasPrefix (sep ++ r) sep = true.
Proof. apply HasPrefix_true. eauto. Qed.

Lemma HasPrefix_short s sep : (length s < length sep)%nat -> HasPrefix s sep = false.
Proof.
  intros Hlt. destruct (HasPrefix s sep) eqn:E; [|done].
  apply HasPrefix_true in E as [r ->]. rewrite length_app in Hlt. lia.
Qed.

(** [Index] is [-1] or a position at which [sep] fits. *)
Lemma Index_range s sep :
  Index s sep = -1 \/ 0 <= Index s sep /\ Index s sep + len sep <= len s.
Proof.
  induction s as [|c s IH]; simpl.
  - destruct (HasPrefix [] sep) eqn:E; [|by left].
    right. apply HasPrefix_true in E as [r E]. symmetry in E.
    apply app_eq_nil in E as [-> _]. unfold len; simpl; lia.
  - destruct (HasPrefix (c :: s) sep) eqn:E.
    + right. apply HasPrefix_true in E as [r ->].
      rewrite len_app. pose proof (len_nonneg r). lia.
    + destruct IH as [->|[H0 H1]]; [by left|].
      right. rewrite len_cons.
      destruct (Index s sep <? 0) eqn:Hlt; lia.
Qed.

(** The position [Index] returns is an instance of [sep], and the first. *)
Lemma Index_found s sep (n : nat) :
  Index s sep = Z.of_nat n ->
  HasPrefix (drop n s) sep = true /\
  forall k, (k < n)%nat -> HasPrefix (drop k s) sep = false.
Proof.
  revert n. induction s as [|c s IH]; intros n; simpl.
  - destruct (HasPrefix [] sep) eqn:E; [|lia].
    intros Hn. assert (n = 0%nat) as -> by lia. split; [done | lia].
  - destruct (HasPrefix (c :: s) sep) eqn:E.
    + intros Hn. assert (n = 0%nat) as -> by lia. split; [done | lia].
    + destruct (Index s sep <? 0) eqn:Hlt; [lia|].
      intros Hn. destruct n as [|n]; [lia|].
      destruct (IH n) as [Hat Hbefore]; [lia|].
      split; [done|]. intros [|k] Hk; simpl; [done | apply Hbefore; lia].
Qed.

(** Conversely, the first instance is what [Index] returns. *)
Lemma Index_first s sep (n : nat) :
  HasPrefix (drop n s) sep = true ->
  (forall k, (k < n)%nat -> HasPrefix (drop k s) sep = false) ->
  (n <= length s)%nat ->
  Index s sep = Z.of_nat n.
Proof.
  revert n. induction s as [|c s IH]; intros n Hat Hbefore Hn.
  - simpl in Hn. assert (n = 0%nat) as -> by lia. simpl in *. by rewrite Hat.
  - destruct n as [|n].
    + simpl in Hat. simpl. by rewrite Hat.
    + pose proof (Hbefore 0%nat ltac:(lia)) as H0. simpl in H0, Hat, Hn.
      simpl. rewrite H0.
      rewrite (IH n); [| done | intros k Hk; apply (Hbefore (S k)); lia | lia].
      destruct (Z.of_nat n <? 0) eqn:Hlt; lia.
Qed.

(** [Index] is [-1] exactly when no position is an instance of [sep]. *)
Lemma Index_absent s sep :
  Index s sep = -1 <-> forall k, HasPrefix (drop k s) sep = false.
Proof.
  split.
  - induction s as [|c s IH]; simpl.
    + destruct (HasPrefix [] sep) eqn:E; [lia|]. intros _ k. by rewrite drop_nil.
    + destruct (HasPrefix (c :: s) sep) eqn:E; [lia|].
      destruct (Index s sep <? 0) eqn:Hlt; [|lia].
      intros _ [|k]; simpl; [done|]. apply IH.
      destruct (Index_range s sep); lia.
  - intros Hno. destruct (Index_range s sep) as [|[H0 H1]]; [done|].
    destruct (Index_found s sep (Z.to_nat (Index s sep))) as [Hat _]; [lia|].
    by rewrite Hno in Hat.
Qed.

(** In words: [sep] occurs in [s] exactly when [Contains] says so. *)
Lemma Contains_occurs s sep :
  Contains s sep = true <-> exists l r, s = l ++ sep ++ r.
Proof.
  unfold Contains. split.
  - intros Hc. destruct (Index_range s sep) as [E|[H0 H1]].
    + rewrite E in Hc. done.
    + destruct (Index_found s sep (Z.to_nat (Index s sep))) as [Hat _]; [lia|].
      apply HasPrefix_true in Hat as [r Hr].
      exists (take (Z.to_nat (Index s sep)) s), r.
      by rewrite <- Hr, take_drop.
  - intros (l & r & ->).
    destruct (Index (l ++ sep ++ r) sep =? -1) eqn:E; [|done].
    apply Z.eqb_eq in E. rewrite Index_absent in E.
    specialize (E (length l)). rewrite drop_app_length in E.
    by rewrite HasPrefix_app in E.
Qed.

Lemma HasPrefix_app_long s sep r :
  (length sep <= length s)%nat -> HasPrefix (s ++ r) sep = HasPrefix s sep.
Proof.
  revert s. induction sep as [|p sep IH]; intros [|c s] Hle; simpl in *; try done; [lia|].
  destruct (decide (p = c)); [apply IH; lia | done].
Qed.

Lemma last_unique_split sep :
  last_unique sep = true -> exists sep' c, sep = sep' ++ [c] /\ c ∉ sep'.
Proof.
  unfold last_unique. destruct (reverse sep) as [|c rest] eqn:E; [done|].
  intros Hc. apply bool_decide_eq_true in Hc.
  exists (reverse rest), c. split.
  - by rewrite <- (reverse_involutive sep), E, reverse_cons.
  - by rewrite elem_of_reverse.
Qed.

(** No instance of such a separator starts inside [x] and runs into the
    instance that follows [x]. *)
Lemma HasPrefix_straddle x sep r :
  last_unique sep = true ->
  (0 < length x < length sep)%nat ->
  HasPrefix (x ++ sep ++ r) sep = false.
Proof.
  intros Hu [Hx0 Hx1]. destruct (last_unique_split sep Hu) as (sep' & c & -> & Hc).
  destruct (HasPrefix _ _) eqn:E; [|done]. exfalso.
  apply HasPrefix_true in E as [r' E].
  rewrite length_app in Hx1. simpl in Hx1.
  apply (f_equal (fun l => l !! length sep')) in E.
  rewrite <- (assoc app sep' [c] r'), (lookup_app_r sep') in E by lia.
  rewrite Nat.sub_diag in E. simpl in E.
  rewrite lookup_app_r in E by lia.
  rewrite <- (assoc app sep'), lookup_app_l in E by lia.
  apply Hc. eapply list_elem_of_lookup_2, E.
Qed.

(** After a stretch [x] free of [sep], the instance found is the one
    that follows [x]. *)
Lemma Index_app_sep x sep r :
  last_unique sep = true ->
  Index x sep = -1 ->
  Index (x ++ sep ++ r) sep = len x.
Proof.
  intros Hu Hx. apply Index_first.
  - by rewrite drop_app_length, HasPrefix_app.
  - intros k Hk. rewrite drop_app_le by lia.
    destruct (decide (length (drop k x) < length sep)%nat) as [Hs|Hl].
    + apply HasPrefix_straddle; [done|]. rewrite length_drop in *. lia.
    + rewrite HasPrefix_app_long by lia. by apply Index_absent.
  - rewrite length_app. lia.
Qed.
End IndexFacts.

(** ** [parse], case by case *)

Section ParseFacts.
Implicit Types buf data pre suf rest : bytes.

Lemma Index_nil_sep sep : sep ≠ [] -> Index [] sep = -1.
Proof. destruct sep; [done|]. reflexivity. Qed.

(** [bytes.SplitN(s, sep, 2)]: one piece when [sep] is absent, otherwise
    what precedes and what follows its first instance. *)
Lemma SplitN_2 (s sep : bytes) :
  sep ≠ [] ->
  SplitN s sep 2 =
    if Index s sep <? 0 then [s]
    else [take (Z.to_nat (Index s sep)) s;
          drop (Z.to_nat (Index s sep + len sep)) s].
Proof.
  intros Hsep. unfold SplitN. simpl.
  destruct s as [|c s].
  - rewrite Index_nil_sep by done. reflexivity.
  - rewrite len_cons.
    destruct (len s + 1 + 1 <? 2) eqn:Hlt; [pose proof (len_nonneg s); lia|].
    reflexivity.
Qed.

Lemma markJSONBegin_nonempty : bytes_of markJSONBegin ≠ [].
Proof. done. Qed.

Lemma markJSONEnd_nonempty : bytes_of markJSONEnd ≠ [].
Proof. done. Qed.

Lemma markJSONBegin_last_unique : last_unique (bytes_of markJSONBegin) = true.
Proof. vm_compute. reflexivity. Qed.

Lemma markJSONEnd_last_unique : last_unique (bytes_of markJSONEnd) = true.
Proof. vm_compute. reflexivity. Qed.

(** [parse_buf] without the bounds checks: they never fail. *)
Lemma parse_buf_unfold buf :
  parse_buf buf =
    let m := Index buf (bytes_of markJSONBegin) in
    if m <? 0 then Fail (ErrSplit markJSONBegin 1)
    else match drop (Z.to_nat (m + len (bytes_of markJSONBegin))) buf with
         | [] => Fail (ErrDataLength 0)
         | _ :: data =>
             let idx := Index data (bytes_of markJSONEnd) in
             if idx <=? 0 then Fail (ErrFind markJSONEnd data)
             else Ret (take (Z.to_nat (idx - 1)) data)
         end.
Proof.
  unfold parse_buf. rewrite SplitN_2 by apply markJSONBegin_nonempty.
  cbv zeta.
  destruct (Index buf (bytes_of markJSONBegin) <? 0) eqn:Hm; [reflexivity|].
  change (len [_; _] <=? 1) with false. cbv iota.
  change (index_at [?a; ?b] 1) with (Some b). simpl.
  destruct (drop _ buf) as [|c data] eqn:Hrem; [reflexivity|].
  rewrite len_cons.
  destruct (len data + 1 =? 0) eqn:H0; [pose proof (len_nonneg data); lia|].
  unfold slice_from. rewrite len_cons.
  destruct ((0 <=? 1) && (1 <=? len data + 1)) eqn:H1;
    [| pose proof (len_nonneg data); apply andb_false_iff in H1 as [?|?]; lia].
  simpl. rewrite !drop_0.
  destruct (Index data (bytes_of markJSONEnd) <=? 0) eqn:Hidx; [reflexivity|].
  unfold slice_to.
  destruct (Index_range data (bytes_of markJSONEnd)) as [Hr|[Hr0 Hr1]]; [lia|].
  pose proof (len_nonneg (bytes_of markJSONEnd)).
  destruct ((0 <=? _) && (_ <=? len data)) eqn:H2;
    [reflexivity | apply andb_false_iff in H2 as [?|?]; lia].
Qed.

Lemma Contains_false (s sep : bytes) : Contains s sep = false <-> Index s sep = -1.
Proof.
  unfold Contains. rewrite negb_false_iff. apply Z.eqb_eq.
Qed.

(** [s] splits around the instance that [Index] finds. *)
Lemma Index_split (s sep : bytes) (n : nat) :
  Index s sep = Z.of_nat n ->
  s = take n s ++ sep ++ drop (n + length sep) s.
Proof.
  intros Hn. destruct (Index_found s sep n Hn) as [Hat _].
  apply HasPrefix_true in Hat as [r Hr].
  rewrite <- (take_drop n s) at 1. f_equal. rewrite Hr. f_equal.
  by rewrite <- drop_drop, Hr, drop_app_length.
Qed.

(** What precedes the first instance of [sep] is free of [sep]. *)
Lemma Index_take_absent (s sep : bytes) (n : nat) :
  sep ≠ [] ->
  Index s sep = Z.of_nat n ->
  Index (take n s) sep = -1.
Proof.
  intros Hsep Hn. destruct (Index_found s sep n Hn) as [_ Hbefore].
  destruct (Index_range s sep) as [|[_ Hle]]; [lia|].
  assert (n <= length s)%nat by (pose proof (len_nonneg sep); unfold len in *; lia).
  apply Index_absent. intros k.
  destruct (HasPrefix (drop k (take n s)) sep) eqn:E; [|done].
  apply HasPrefix_true in E as [r Hr].
  destruct (decide (k < n)%nat) as [Hk|Hk].
  - specialize (Hbefore k Hk).
    rewrite <- (take_drop n s), drop_app_le, Hr in Hbefore
      by (rewrite length_take; lia).
    by rewrite <- (assoc app), HasPrefix_app in Hbefore.
  - rewrite drop_ge in Hr by (rewrite length_take; lia).
    symmetry in Hr. apply app_eq_nil in Hr as [? _]. done.
Qed.

(** One more byte, different from the last byte of [sep], does not
    complete an instance of [sep]. *)
Lemma Index_snoc_absent (x sep' : bytes) (c d : byte) :
  c ≠ d ->
  Index x (sep' ++ [d]) = -1 ->
  Index (x ++ [c]) (sep' ++ [d]) = -1.
Proof.
  intros Hcd Hx. apply Index_absent. intros k.
  destruct (HasPrefix _ _) eqn:E; [|done]. exfalso.
  apply HasPrefix_true in E as [r Hr].
  destruct (decide (k <= length x)%nat) as [Hk|Hk].
  - rewrite drop_app_le in Hr by done.
    destruct r as [|c' r' _] using rev_ind.
    + rewrite app_nil_r in Hr. apply app_inj_tail in Hr as [_ ?]. done.
    + rewrite !(assoc app) in Hr. apply app_inj_tail in Hr as [Hr _].
      rewrite Index_absent in Hx. specialize (Hx k).
      by rewrite Hr, HasPrefix_app in Hx.
  - rewrite drop_ge in Hr by (rewrite length_app; simpl; lia).
    symmetry in Hr. apply app_eq_nil in Hr as [Hr _].
    by apply app_eq_nil in Hr as [_ ?].
Qed.

(** Without a begin marker [parse_buf] reports the failed split. *)
Lemma parse_buf_no_begin buf :
  Contains buf (bytes_of markJSONBegin) = false ->
  parse_buf buf = Fail (ErrSplit markJSONBegin 1).
Proof.
  intros Hb. apply Contains_false in Hb.
  rewrite parse_buf_unfold. cbv zeta. by rewrite Hb.
Qed.

(** After the first begin marker [parse_buf] looks at what follows it. *)
Lemma parse_buf_begin pre rem :
  Contains pre (bytes_of markJSONBegin) = false ->
  parse_buf (pre ++ bytes_of markJSONBegin ++ rem) =
    match rem with
    | [] => Fail (ErrDataLength 0)
    | _ :: data =>
        if Index data (bytes_of markJSONEnd) <=? 0
        then Fail (ErrFind markJSONEnd data)
        else Ret (take (Z.to_nat (Index data (bytes_of markJSONEnd) - 1)) data)
    end.
Proof.
  intros Hpre. apply Contains_false in Hpre.
  rewrite parse_buf_unfold. cbv zeta.
  rewrite (Index_app_sep pre) by (apply markJSONBegin_last_unique || done).
  pose proof (len_nonneg pre).
  destruct (len pre <? 0) eqn:Hlt; [lia|].
  replace (Z.to_nat (len pre + len (bytes_of markJSONBegin)))
    with (length (pre ++ bytes_of markJSONBegin))
    by (rewrite length_app; unfold len; lia).
  by rewrite (assoc app pre), drop_app_length.
Qed.

(** Every input either lacks the begin marker or splits at its first instance. *)
Lemma begin_marker_cases buf :
  Contains buf (bytes_of markJSONBegin) = false \/
  exists pre rem,
    buf = pre ++ bytes_of markJSONBegin ++ rem /\
    Contains pre (bytes_of markJSONBegin) = false.
Proof.
  destruct (Index_range buf (bytes_of markJSONBegin)) as [Hm|[Hm0 Hm1]].
  - left. by apply Contains_false.
  - right.
    assert (Hm : Index buf (bytes_of markJSONBegin)
                 = Z.of_nat (Z.to_nat (Index buf (bytes_of markJSONBegin)))) by lia.
    eexists _, _. split; [apply (Index_split _ _ _ Hm)|].
    apply Contains_false. by apply Index_take_absent; [apply markJSONBegin_nonempty|].
Qed.

(** The begin marker occurs in whatever contains an instance of it. *)
Lemma Contains_app_sep pre sep rem : Contains (pre ++ sep ++ rem) sep = true.
Proof. apply Contains_occurs. eauto. Qed.

(** The inputs on which [parse_buf] returns [data]. *)
Lemma parse_buf_Ret buf data :
  parse_buf buf = Ret data <->
  exists pre c1 c2 suf,
    buf = pre ++ bytes_of markJSONBegin ++ c1 :: data ++ c2 :: bytes_of markJSONEnd ++ suf /\
    Contains pre (bytes_of markJSONBegin) = false /\
    Contains (data ++ [c2]) (bytes_of markJSONEnd) = false.
Proof.
  rewrite parse_buf_unfold. cbv zeta. split.
  - destruct (Index_range buf (bytes_of markJSONBegin)) as [->|[Hm0 Hm1]]; [done|].
    destruct (_ <? 0) eqn:Hlt; [lia|].
    set (m := Z.to_nat (Index buf (bytes_of markJSONBegin))).
    assert (Hm : Index buf (bytes_of markJSONBegin) = Z.of_nat m) by lia.
    replace (Z.to_nat (_ + _)) with (m + length (bytes_of markJSONBegin))%nat
      by (unfold len; lia).
    pose proof (Index_split _ _ _ Hm) as Hbuf.
    destruct (drop _ buf) as [|c1 rest] eqn:Hrem; [done|].
    destruct (Index_range rest (bytes_of markJSONEnd)) as [Hi|[Hi0 Hi1]];
      [rewrite Hi; done|].
    destruct (_ <=? 0) eqn:Hle; [done|]. intros [= <-].
    set (i := Z.to_nat (Index rest (bytes_of markJSONEnd))).
    assert (Hi : Index rest (bytes_of markJSONEnd) = Z.of_nat i) by lia.
    pose proof (Index_split _ _ _ Hi) as Hrest.
    pose proof (Index_take_absent _ _ _ markJSONEnd_nonempty Hi) as Hfree.
    assert (Hlen : (i <= length rest)%nat)
      by (pose proof (len_nonneg (bytes_of markJSONEnd)); unfold len in *; lia).
    destruct i as [|i]; [lia|].
    rewrite Hi. replace (Z.to_nat (Z.of_nat (S i) - 1)) with i by lia.
    destruct (lookup_lt_is_Some_2 rest i) as [c2 Hc2]; [lia|].
    rewrite (take_S_r _ _ _ Hc2) in Hfree, Hrest.
    exists (take m buf), c1, c2, (drop (S i + length (bytes_of markJSONEnd)) rest).
    split; [|split].
    + rewrite Hbuf at 1. do 3 f_equal. rewrite Hrest at 1.
      by rewrite <- !(assoc app).
    + apply Contains_false. by apply Index_take_absent; [apply markJSONBegin_nonempty|].
    + by apply Contains_false.
  - intros (pre & c1 & c2 & suf & -> & Hpre & Hdata).
    apply Contains_false in Hpre, Hdata.
    rewrite (Index_app_sep pre) by (apply markJSONBegin_last_unique || done).
    pose proof (len_nonneg pre).
    destruct (len pre <? 0) eqn:Hlt; [lia|].
    replace (Z.to_nat (len pre + len (bytes_of markJSONBegin)))
      with (length (pre ++ bytes_of markJSONBegin))
      by (rewrite length_app; unfold len; lia).
    rewrite (assoc app pre), drop_app_length.
    replace (data ++ c2 :: bytes_of markJSONEnd ++ suf)
      with ((data ++ [c2]) ++ bytes_of markJSONEnd ++ suf)
      by (by rewrite <- (assoc app)).
    rewrite (Index_app_sep (data ++ [c2])) by (apply markJSONEnd_last_unique || done).
    rewrite len_app. change (len [c2]) with 1.
    pose proof (len_nonneg data).
    destruct (len data + 1 <=? 0) eqn:Hle; [lia|].
    replace (Z.to_nat (len data + 1 - 1)) with (length data) by (unfold len; lia).
    by rewrite <- (assoc app), take_app_length.
Qed.

Lemma parse_NewReader buf : parse (NewReader buf) = parse_buf buf.
Proof. reflexivity. Qed.
End ParseFacts.

(** ** The extractor *)

(** C10 — [parse] is total and stays within bounds: whatever the reader
    yields, [parse] returns a byte slice or an error and never panics; the
    three bounds checks on its way ([splitted[1]], [data[1:]] and
    [data[:idx-1]]) all pass, each being guarded by the test before it. *)
Theorem parse_total (r : Reader) :
  parse r ≠ Panic /\
  ((exists data, parse r = Ret data) \/ (exists e, parse r = Fail e)).
Proof.
  destruct r as [buf [e|]]; unfold parse; simpl.
  - split; [done | right; eauto].
  - rewrite parse_buf_unfold. cbv zeta.
    destruct (_ <? 0); [split; [done | right; eauto]|].
    destruct (drop _ buf) as [|c data]; [split; [done | right; eauto]|].
    destruct (_ <=? 0); split; try done; [right | left]; eauto.
Qed.

(** C1 — round trip: for an input
    [prefix ++ beginMarker ++ "\n" ++ payload ++ "\n" ++ endMarker ++ suffix]
    whose prefix is free of the begin marker, whose payload is non-empty and
    where neither ["\n" ++ payload] nor [payload] contains the end marker,
    [parse] succeeds and returns exactly [payload]. *)
Theorem parse_round_trip (prefix payload suffix : bytes) :
  Contains prefix (bytes_of markJSONBegin) = false ->
  0 < len payload ->
  Contains (nl :: payload) (bytes_of markJSONEnd) = false ->
  Contains payload (bytes_of markJSONEnd) = false ->
  parse (NewReader (prefix ++ bytes_of markJSONBegin ++ nl :: payload ++
                    nl :: bytes_of markJSONEnd ++ suffix)) = Ret payload.
Proof.
  intros Hprefix _ _ Hpayload. rewrite !parse_NewReader.
  apply parse_buf_Ret. exists prefix, nl, nl, suffix.
  split; [done | split; [done|]].
  apply Contains_false. apply Contains_false in Hpayload.
  change (bytes_of markJSONEnd) with (bytes_of "// ${JSON:END" ++ ["}"%byte]) in *.
  by apply Index_snoc_absent.
Qed.

Lemma parse_round_trip_witness :
  parse (NewReader (bytes_of "prefix" ++ bytes_of markJSONBegin ++ nl :: bytes_of "{}" ++
                    nl :: bytes_of markJSONEnd ++ bytes_of "suffix")) = Ret (bytes_of "{}").
Proof.
  apply (parse_round_trip (bytes_of "prefix") (bytes_of "{}") (bytes_of "suffix"));
    reflexivity.
Defined.

(** C8 — the trim is a fixed offset of one byte on each side: [parse]
    returns [data] exactly on the inputs in which the first begin marker is
    followed by one byte [c1], then [data], then one byte [c2], then the
    first end marker; [c1] and [c2] are any bytes, newline or not. *)
Theorem parse_fixed_offsets (buf data : bytes) :
  parse (NewReader buf) = Ret data <->
  exists pre c1 c2 suf,
    buf = pre ++ bytes_of markJSONBegin ++ [c1] ++ data ++ [c2] ++
          bytes_of markJSONEnd ++ suf /\
    Contains pre (bytes_of markJSONBegin) = false /\
    Contains (data ++ [c2]) (bytes_of markJSONEnd) = false.
Proof. rewrite !parse_NewReader. apply parse_buf_Ret. Qed.

(** C3 — marker-not-found failures: [parse] fails for want of the begin
    marker exactly when the input does not contain it, and for want of the
    end marker exactly when, in what follows the first begin marker less one
    byte, the end marker is absent or sits at index 0. *)
Theorem parse_marker_not_found (buf : bytes) :
  ((exists e, parse (NewReader buf) = Fail e /\
              parse_error_kind e = MarkerNotFound MarkBegin) <->
   Contains buf (bytes_of markJSONBegin) = false) /\
  ((exists e, parse (NewReader buf) = Fail e /\
              parse_error_kind e = MarkerNotFound MarkEnd) <->
   exists pre c rest,
     buf = pre ++ bytes_of markJSONBegin ++ c :: rest /\
     Contains pre (bytes_of markJSONBegin) = false /\
     (Contains rest (bytes_of markJSONEnd) = false \/
      Index rest (bytes_of markJSONEnd) = 0)).
Proof.
  rewrite !parse_NewReader. split; split.
  - intros (e & He & Hk).
    destruct (begin_marker_cases buf) as [|(pre & rem & -> & Hpre)]; [done|].
    rewrite parse_buf_begin in He by done.
    destruct rem as [|c data]; [by injection He as <-|].
    destruct (_ <=? 0); [by injection He as <- | done].
  - intros Hb. rewrite parse_buf_no_begin by done. eauto.
  - intros (e & He & Hk).
    destruct (begin_marker_cases buf) as [Hb|(pre & rem & -> & Hpre)].
    + rewrite parse_buf_no_begin in He by done. by injection He as <-.
    + rewrite parse_buf_begin in He by done.
      destruct rem as [|c data]; [by injection He as <-|].
      exists pre, c, data. split; [done | split; [done|]].
      destruct (Index_range data (bytes_of markJSONEnd)) as [Hi|[Hi0 _]].
      * left. by apply Contains_false.
      * right. destruct (_ <=? 0) eqn:Hle; [lia | done].
  - intros (pre & c & rest & -> & Hpre & Hend).
    rewrite parse_buf_begin by done.
    assert (Hle : (Index rest (bytes_of markJSONEnd) <=? 0) = true).
    { destruct Hend as [Hend| ->]; [|done]. apply Contains_false in Hend. by rewrite Hend. }
    rewrite Hle. eauto.
Qed.

(** C4, as the code has it — [parse] reports an empty payload exactly when
    nothing at all follows the first begin marker: the test comes before the
    one-byte trim. When a single byte follows, the failure is that of the
    end marker; and [parse] returns the empty slice on the inputs where one
    byte alone separates the trimmed byte from the end marker. *)
Theorem parse_empty_payload (buf : bytes) :
  ((exists e, parse (NewReader buf) = Fail e /\ parse_error_kind e = EmptyPayload) <->
   exists pre,
     buf = pre ++ bytes_of markJSONBegin /\
     Contains pre (bytes_of markJSONBegin) = false) /\
  ((exists pre c,
      buf = pre ++ bytes_of markJSONBegin ++ [c] /\
      Contains pre (bytes_of markJSONBegin) = false) ->
   exists e, parse (NewReader buf) = Fail e /\
             parse_error_kind e = MarkerNotFound MarkEnd) /\
  (parse (NewReader buf) = Ret [] <->
   exists pre c1 c2 suf,
     buf = pre ++ bytes_of markJSONBegin ++ [c1; c2] ++ bytes_of markJSONEnd ++ suf /\
     Contains pre (bytes_of markJSONBegin) = false).
Proof.
  rewrite !parse_NewReader. split; [split | split].
  - intros (e & He & Hk).
    destruct (begin_marker_cases buf) as [Hb|(pre & rem & -> & Hpre)].
    + rewrite parse_buf_no_begin in He by done. by injection He as <-.
    + rewrite parse_buf_begin in He by done.
      destruct rem as [|c data]; [exists pre; by rewrite app_nil_r|].
      destruct (_ <=? 0); [by injection He as <- | done].
  - intros (pre & -> & Hpre).
    rewrite <- (app_nil_r (bytes_of markJSONBegin)), parse_buf_begin by done. eauto.
  - intros (pre & c & -> & Hpre). rewrite parse_buf_begin by done. eauto.
  - rewrite parse_buf_Ret. split.
    + intros (pre & c1 & c2 & suf & -> & Hpre & _). by exists pre, c1, c2, suf.
    + intros (pre & c1 & c2 & suf & -> & Hpre). exists pre, c1, c2, suf.
      split; [done | split; [done|]].
      apply Contains_false. cbn. by destruct (decide _).
Qed.

(** C4, as stated, fails: a lone newline after the begin marker is an end
    marker failure, not an empty payload, and two newlines between the
    markers make [parse] succeed with the empty slice. *)
Lemma parse_empty_payload_counterexample :
  (exists e,
     parse (NewReader (bytes_of markJSONBegin ++ [nl])) = Fail e /\
     parse_error_kind e <> EmptyPayload) /\
  parse (NewReader (bytes_of markJSONBegin ++ [nl; nl] ++ bytes_of markJSONEnd)) = Ret [] /\
  ~ (forall buf data, parse (NewReader buf) = Ret data -> data <> []).
Proof.
  split; [|split].
  - eexists. split; [vm_compute; reflexivity | done].
  - vm_compute. reflexivity.
  - intros H.
    by apply (H (bytes_of markJSONBegin ++ [nl; nl] ++ bytes_of markJSONEnd) []).
Qed.

(** ** [json.Unmarshal] against the shape of the records *)

Section OutcomeFacts.
Context {E A B : Type}.
Implicit Types (m : outcome E A) (k : A -> outcome E B).

Lemma is_Ret_true m : is_Ret m = true <-> exists a, m = Ret a.
Proof. destruct m; simpl; split; eauto; try done; by intros [? ?]. Qed.

Lemma bind_Ret m k a : m = Ret a -> m ≫= k = k a.
Proof. by intros ->. Qed.

Lemma bind_no_panic m k :
  m ≠ Panic -> (forall a, k a ≠ Panic) -> m ≫= k ≠ Panic.
Proof. destruct m; simpl; auto. Qed.

Lemma not_Ret_Fail m : is_Ret m = false -> m ≠ Panic -> exists e, m = Fail e.
Proof. destruct m; try done; eauto. Qed.
End OutcomeFacts.

Section ElementFacts.
Context {T : Type} `{UnmarshalerLaws T}.

Lemma unmarshal_elems_accepts (l : list json) :
  is_Ret (unmarshal_elems (T:=T) l) = forallb (accepts T) l.
Proof.
  induction l as [|j l IH]; [done|]. simpl.
  rewrite <- (unmarshal_accepts j), <- IH.
  destruct (unmarshal j); [|done..]. simpl.
  by destruct (unmarshal_elems l).
Qed.

Lemma unmarshal_elems_no_panic (l : list json) :
  unmarshal_elems (T:=T) l ≠ Panic.
Proof.
  induction l as [|j l IH]; [done|]. simpl.
  apply bind_no_panic; [apply unmarshal_no_panic|]. intros v.
  by apply bind_no_panic.
Qed.

Lemma unmarshal_elems_represents (l : list json) (vs : list T) :
  Forall2 represents l vs -> unmarshal_elems l = Ret vs.
Proof.
  induction 1 as [|j v l vs Hj _ IH]; [done|]. simpl.
  by rewrite (unmarshal_represents j v Hj), IH.
Qed.

Lemma field_accepts (m : gmap string json) (k : string) :
  is_Ret (field (T:=T) m k) = member_ok T m k.
Proof.
  unfold field, member_ok. destruct (m !! k); [apply unmarshal_accepts | done].
Qed.

Lemma field_no_panic (m : gmap string json) (k : string) :
  field (T:=T) m k ≠ Panic.
Proof. unfold field. destruct (m !! k); [apply unmarshal_no_panic | done]. Qed.

Lemma field_represents (m : gmap string json) (k : string) (v : T) :
  member m k v -> field m k = Ret v.
Proof.
  unfold field, member. destruct (m !! k); [apply unmarshal_represents | by intros ->].
Qed.
End ElementFacts.

#[global] Instance string_laws : UnmarshalerLaws string.
Proof.
  split.
  - by intros [].
  - by intros [].
  - by intros j x ->.
Qed.

#[global] Instance slice_laws {T} `{UnmarshalerLaws T} : UnmarshalerLaws (slice T).
Proof.
  split.
  - intros []; try done. simpl. rewrite <- unmarshal_elems_accepts.
    by destruct (unmarshal_elems l).
  - intros []; try done. simpl. apply bind_no_panic; [apply unmarshal_elems_no_panic | done].
  - intros [] [] Hr; try done. simpl in *.
    by rewrite (unmarshal_elems_represents _ _ Hr).
Qed.

#[global] Instance ptr_laws {T} `{UnmarshalerLaws T} : UnmarshalerLaws (ptr T).
Proof.
  split.
  - intros j. pose proof (unmarshal_accepts (T:=T) j) as Hj.
    destruct j; try done; simpl in *; by destruct (unmarshal _).
  - intros j. pose proof (unmarshal_no_panic (T:=T) j) as Hj.
    destruct j; try done; simpl in *; by destruct (unmarshal _).
  - intros j [v|] Hr; [|by destruct j].
    assert (Hv : represents j v) by (by destruct j).
    apply unmarshal_represents in Hv.
    destruct j; try done; simpl in *; by rewrite Hv.
Qed.

(** Case analysis on the decoded fields of a struct, one after the other. *)
Ltac fields_accepts :=
  repeat match goal with
  | |- is_Ret (mbind _ (@field ?T ?U ?m ?k)) = _ =>
      let Ha := fresh "Ha" in
      pose proof (field_accepts (T:=T) m k) as Ha;
      destruct (@field T U m k); simpl in Ha; rewrite <- Ha; clear Ha;
      [simpl | reflexivity | reflexivity]
  end; try reflexivity.

Ltac fields_no_panic :=
  repeat match goal with
  | |- mbind _ (@field ?T ?U ?m ?k) ≠ Panic =>
      let Hp := fresh "Hp" in
      pose proof (field_no_panic (T:=T) m k) as Hp;
      destruct (@field T U m k); [clear Hp; simpl | discriminate | done]
  end; try discriminate.

Ltac fields_represents :=
  repeat match goal with
  | Hm : member ?m ?k ?v |- _ => rewrite (field_represents m k v Hm); clear Hm; simpl
  end.

Ltac struct_laws :=
  split;
  [ intros []; try reflexivity; simpl; fields_accepts
  | intros []; try done; simpl; fields_no_panic
  | intros [] [] Hr; try done;
    simpl in Hr; try unfold register_classes, register_fields in Hr; simpl in Hr; simpl;
    repeat match goal with
           | Hr : _ /\ _ |- _ => destruct Hr as [? Hr]
           | Hr : Forall2 _ (_ :: _) (_ :: _) |- _ => apply Forall2_cons_1 in Hr as [? Hr]
           end;
    fields_represents; reflexivity ].

#[global] Instance array5_laws {T} `{UnmarshalerLaws T} : UnmarshalerLaws (array5 T).
Proof.
  split.
  - intros []; try done. simpl.
    destruct l as [|j0 [|j1 [|j2 [|j3 [|j4 [|j5 l]]]]]]; simpl;
      try (by repeat (destruct (unmarshal _); simpl; try done)).
    rewrite <- !(unmarshal_accepts (T:=T)).
    by repeat (destruct (unmarshal _); simpl; try done).
  - intros []; try done. simpl.
    destruct l as [|j0 [|j1 [|j2 [|j3 [|j4 [|j5 l]]]]]]; simpl; try done;
      repeat match goal with
             | |- context [unmarshal (T:=T) ?j] =>
                 pose proof (unmarshal_no_panic (T:=T) j);
                 destruct (unmarshal (T:=T) j); simpl; try done
             end.
  - intros [] [] Hr; try done. simpl in Hr. unfold array5_list in Hr. simpl in Hr.
    destruct l as [|j0 [|j1 [|j2 [|j3 [|j4 [|j5 l]]]]]];
      repeat match goal with
             | Hr : Forall2 _ (_ :: _) (_ :: _) |- _ => apply Forall2_cons_1 in Hr as [? Hr]
             | Hr : Forall2 _ [] (_ :: _) |- _ => by apply Forall2_nil_cons_inv in Hr
             | Hr : Forall2 _ (_ :: _) [] |- _ => by apply Forall2_cons_nil_inv in Hr
             end.
    simpl.
    repeat match goal with
           | Hj : represents ?j ?v |- _ =>
               rewrite (unmarshal_represents j v Hj); clear Hj; simpl
           end.
    reflexivity.
Qed.

#[global] Instance X86Extension_laws : UnmarshalerLaws X86Extension.t.
Proof. struct_laws. Qed.

#[global] Instance X86Attribute_laws : UnmarshalerLaws X86Attribute.t.
Proof. struct_laws. Qed.

#[global] Instance X86SpecialReg_laws : UnmarshalerLaws X86SpecialReg.t.
Proof. struct_laws. Qed.

#[global] Instance X86Shortcut_laws : UnmarshalerLaws X86Shortcut.t.
Proof. struct_laws. Qed.

#[global] Instance X86RegisterData_laws : UnmarshalerLaws X86RegisterData.t.
Proof. struct_laws. Qed.

#[global] Instance X86Register_laws : UnmarshalerLaws X86Register.t.
Proof. struct_laws. Qed.

#[global] Instance X86_laws : UnmarshalerLaws X86.t.
Proof. struct_laws. Qed.

(** ** The derived instructions *)

Section DeriveFacts.
Implicit Types (instructions : list (array5 string)) (insts : list X86Instruction.t).

Lemma assign_at_Ret {E A} (s : list A) (i : nat) (set : A -> A) :
  (i < length s)%nat -> assign_at (E:=E) s i set = Ret (alter set i s).
Proof. intros Hi. unfold assign_at. by rewrite decide_True. Qed.

(** One turn of the loop writes the whole record at index [i]. *)
Lemma five_assignments insts (i : nat) (inst : array5 string) :
  alter (X86Instruction.set_Metadata (elem4 inst)) i
    (alter (X86Instruction.set_OpCode (elem3 inst)) i
       (alter (X86Instruction.set_Encoding (elem2 inst)) i
          (alter (X86Instruction.set_Operands (elem1 inst)) i
             (alter (X86Instruction.set_Name (elem0 inst)) i insts))))
  = alter (fun _ => Instruction_of_tuple inst) i insts.
Proof.
  rewrite !list_alter_alter_eq. apply list_alter_ext; [|done].
  by intros [].
Qed.

(** The loop invariant: the records before [i] and after the tuples still
    to visit are left as they are, those in between are the tuples mapped. *)
Lemma range_instructions_Ret instructions : forall (i : nat) insts,
  (i + length instructions <= length insts)%nat ->
  range_instructions i instructions insts =
    Ret (take i insts ++ (Instruction_of_tuple <$> instructions) ++
         drop (i + length instructions) insts).
Proof.
  induction instructions as [|inst instructions IH]; intros i insts Hlen; simpl in *.
  - by rewrite Nat.add_0_r, take_drop.
  - rewrite !assign_at_Ret by (rewrite ?length_alter; lia). simpl.
    rewrite !assign_at_Ret by (rewrite ?length_alter; lia). simpl.
    rewrite !assign_at_Ret by (rewrite ?length_alter; lia). simpl.
    rewrite !assign_at_Ret by (rewrite ?length_alter; lia). simpl.
    rewrite !assign_at_Ret by (rewrite ?length_alter; lia). simpl.
    rewrite five_assignments.
    rewrite IH by (rewrite length_alter; lia). f_equal.
    destruct (lookup_lt_is_Some_2 insts i) as [old Hold]; [lia|].
    rewrite (take_S_r _ _ (Instruction_of_tuple inst))
      by (by rewrite list_lookup_alter_eq, Hold).
    rewrite take_alter_ge by lia.
    rewrite drop_alter_lt by lia.
    rewrite <- (assoc app (take i insts)). simpl.
    replace (i + S (length instructions))%nat with (S (i + length instructions)) by lia.
    reflexivity.
Qed.

(** [gen] from the decoded record on never fails. *)
Lemma gen_derive_Ret (x86Asm : X86.t) :
  gen_derive x86Asm =
    Ret (mkPrinted (X86.set_Instructions nil_slice x86Asm)
                   (Instruction_of_tuple <$> elems (X86.Instructions x86Asm))).
Proof.
  unfold gen_derive. cbv zeta.
  rewrite range_instructions_Ret by (by rewrite length_replicate).
  simpl. rewrite drop_ge by (by rewrite length_replicate). by rewrite app_nil_r.
Qed.
End DeriveFacts.

(** ** [gen] on a decoded payload *)

Section GenFacts.
Implicit Types (m : gmap string json) (j : json).

(** [gen] is [gen_value] on the value read from what [parse] extracts. *)
Lemma gen_reads (asmdbX86 : FS) (ReadValue : bytes -> string + json)
    (fsX86 : Reader) (data : bytes) j :
  asmdbX86 asmdbX86DataJS = inr fsX86 ->
  parse fsX86 = Ret data ->
  ReadValue data = inr j ->
  gen asmdbX86 ReadValue = gen_value j.
Proof. intros Hopen Hparse Hread. unfold gen. by rewrite Hopen, Hparse; simpl; rewrite Hread. Qed.

(** After a successful decode [gen] prints the record and the mapped tuples. *)
Lemma gen_value_Ret j (x86Asm : X86.t) :
  unmarshal j = Ret x86Asm ->
  gen_value j =
    Ret (mkPrinted (X86.set_Instructions nil_slice x86Asm)
                   (Instruction_of_tuple <$> elems (X86.Instructions x86Asm))).
Proof. intros Hu. unfold gen_value. rewrite Hu. simpl. apply gen_derive_Ret. Qed.

(** [gen] fails on a payload exactly when the decode does. *)
Lemma gen_value_Fail j (e : gen_error) :
  gen_value j = Fail e <-> exists err, unmarshal (T:=X86.t) j = Fail err /\ e = ErrUnmarshal err.
Proof.
  unfold gen_value. destruct (unmarshal j) as [x|err|] eqn:Hu; simpl.
  - rewrite gen_derive_Ret. split; [done | by intros (? & ? & ?)].
  - split; [intros [= <-]; eauto | by intros (? & [= <-] & ->)].
  - split; [done | by intros (? & ? & ?)].
Qed.

(** Each field of the decoded record comes from the member of its name. *)
Lemma unmarshal_X86_fields m (x : X86.t) :
  unmarshal (JObject m) = Ret x ->
  field m "architectures" = Ret (X86.Architectures x) /\
  field m "extensions" = Ret (X86.Extensions x) /\
  field m "attributes" = Ret (X86.Attributes x) /\
  field m "specialRegs" = Ret (X86.SpecialRegs x) /\
  field m "shortcuts" = Ret (X86.Shortcuts x) /\
  field m "registers" = Ret (X86.Register x) /\
  field m "instructions" = Ret (X86.Instructions x).
Proof.
  simpl. intros Hu.
  repeat match type of Hu with
         | mbind _ (@field ?T ?U ?m ?k) = _ =>
             destruct (@field T U m k) eqn:?; simpl in Hu; try discriminate
         end.
  by injection Hu as <-.
Qed.

Lemma member_ok_delete T `{Shape T} m (k name : string) :
  member_ok T m name = true -> member_ok T (delete k m) name = true.
Proof.
  unfold member_ok. rewrite lookup_delete. by destruct (decide (k = name)).
Qed.
End GenFacts.

(** The end-to-end scenario of the specification, from the payload on. *)
Example gen_scenario :
  gen_value scenario_json
  = Ret (mkPrinted
           (X86.mk (Slice ["X86"%string]) nil_slice nil_slice nil_slice nil_slice
                   None nil_slice)
           [X86Instruction.mk "mov" "r,r" "RM" "0x89" ""]).
Proof. vm_compute. reflexivity. Qed.

(** ** The mapper *)

(** C2 — the derived step: from a decoded record, whose instructions are
    tuples of five strings, [gen] derives one [X86Instruction] per tuple, in
    the same order, with name, operands, encoding, opcode and metadata taken
    from index 0, 1, 2, 3 and 4 of the tuple. *)
Theorem derive_positional (x86Asm : X86.t) :
  exists insts : list X86Instruction.t,
    gen_derive x86Asm = Ret (mkPrinted (X86.set_Instructions nil_slice x86Asm) insts) /\
    length insts = length (elems (X86.Instructions x86Asm)) /\
    forall (i : nat) (inst : array5 string),
      elems (X86.Instructions x86Asm) !! i = Some inst ->
      exists r : X86Instruction.t,
        insts !! i = Some r /\
        array5_list inst !! 0%nat = Some (X86Instruction.Name r) /\
        array5_list inst !! 1%nat = Some (X86Instruction.Operands r) /\
        array5_list inst !! 2%nat = Some (X86Instruction.Encoding r) /\
        array5_list inst !! 3%nat = Some (X86Instruction.OpCode r) /\
        array5_list inst !! 4%nat = Some (X86Instruction.Metadata r).
Proof.
  eexists. split; [apply gen_derive_Ret|]. split; [by rewrite length_fmap|].
  intros i inst Hi. exists (Instruction_of_tuple inst).
  split; [by rewrite list_lookup_fmap, Hi|]. done.
Qed.

(** C9 — field for field: when the record [x] has the values of the JSON
    value [j], string for string, element for element in the same order and
    member for member, decoding [j] gives exactly [x], and no other record
    has the values of [j]. *)
Theorem unmarshal_field_for_field (j : json) (x : X86.t) :
  represents j x ->
  unmarshal j = Ret x /\ forall x' : X86.t, represents j x' -> x' = x.
Proof.
  intros Hx. pose proof (unmarshal_represents j x Hx) as Hu. split; [done|].
  intros x' Hx'. apply unmarshal_represents in Hx'. congruence.
Qed.

Lemma unmarshal_field_for_field_witness :
  unmarshal scenario_json = Ret scenario_x86 /\
  forall x' : X86.t, represents scenario_json x' -> x' = scenario_x86.
Proof.
  apply (unmarshal_field_for_field scenario_json scenario_x86).
  vm_compute. repeat constructor.
Defined.

(** C7 — without instructions: for a JSON object of the shape of the
    record, in which the member [instructions] is left out, or is the empty
    array, the decode succeeds and [gen] derives no instruction at all. *)
Theorem gen_no_instructions (m : gmap string json) :
  accepts X86.t (JObject m) = true ->
  m !! "instructions" = None \/ m !! "instructions" = Some (JArray []) ->
  exists x86Asm : X86.t,
    unmarshal (JObject m) = Ret x86Asm /\
    gen_value (JObject m) = Ret (mkPrinted (X86.set_Instructions nil_slice x86Asm) []).
Proof.
  intros Hshape Hnone. rewrite <- unmarshal_accepts in Hshape.
  apply is_Ret_true in Hshape as [x Hx]. exists x. split; [done|].
  rewrite (gen_value_Ret _ _ Hx). do 2 f_equal.
  apply unmarshal_X86_fields in Hx as (_ & _ & _ & _ & _ & _ & Hi).
  unfold field in Hi. destruct Hnone as [Hnone|Hnone]; rewrite Hnone in Hi.
  - by injection Hi as <-.
  - by injection Hi as <-.
Qed.

Lemma gen_no_instructions_witness :
  exists x86Asm : X86.t,
    unmarshal no_instructions_json = Ret x86Asm /\
    gen_value no_instructions_json
    = Ret (mkPrinted (X86.set_Instructions nil_slice x86Asm) []).
Proof.
  apply (gen_no_instructions {["architectures" := JArray [JString "X86"]]}).
  - vm_compute. reflexivity.
  - left. vm_compute. reflexivity.
Defined.

(** C5, as the code has it — a tuple of the wrong length: for a JSON
    object whose [instructions] hold an array that has not exactly five
    elements, [gen] fails while decoding, with the error of
    [json.Unmarshal], and so derives nothing; the step that derives the
    instructions cannot fail, whatever the record. *)
Theorem gen_wrong_arity (m : gmap string json) (tuples l : list json) (i : nat) :
  m !! "instructions" = Some (JArray tuples) ->
  tuples !! i = Some (JArray l) ->
  length l <> 5%nat ->
  (exists err, gen_value (JObject m) = Fail (ErrUnmarshal err) /\
               gen_error_kind (ErrUnmarshal err) = SchemaMismatch) /\
  (forall x86Asm : X86.t, is_Ret (gen_derive x86Asm) = true).
Proof.
  intros Hm Hi Hl. split; [|intros x; by rewrite gen_derive_Ret].
  assert (Hshape : accepts X86.t (JObject m) = false).
  { simpl. unfold member_ok at 7. rewrite Hm. simpl.
    replace (forallb _ tuples) with false; [by rewrite andb_false_r|].
    symmetry. apply not_true_is_false. intros Hall.
    rewrite forallb_forall in Hall.
    assert (Hin : In (JArray l) tuples)
      by (apply list_elem_of_In; eapply list_elem_of_lookup_2, Hi).
    specialize (Hall _ Hin). simpl in Hall.
    by rewrite bool_decide_eq_false_2 in Hall. }
  rewrite <- unmarshal_accepts in Hshape.
  destruct (not_Ret_Fail _ Hshape (unmarshal_no_panic _)) as [err Herr].
  exists err. split; [|done]. apply gen_value_Fail. eauto.
Qed.

Lemma gen_wrong_arity_witness :
  (exists err, gen_value tuple4_json = Fail (ErrUnmarshal err) /\
               gen_error_kind (ErrUnmarshal err) = SchemaMismatch) /\
  (forall x86Asm : X86.t, is_Ret (gen_derive x86Asm) = true).
Proof.
  apply (gen_wrong_arity
           {["instructions" :=
               JArray [JArray [JString "mov"; JString "r,r"; JString "RM";
                               JString "0x89"]]]}
           [JArray [JString "mov"; JString "r,r"; JString "RM"; JString "0x89"]]
           [JString "mov"; JString "r,r"; JString "RM"; JString "0x89"]
           0%nat).
  - vm_compute. reflexivity.
  - reflexivity.
  - simpl. lia.
Defined.

(** C5, as stated, fails: with a tuple of four elements, or of six, the
    failure is that of the structural decode, which [gen] reports as
    "unmarshal X86"; no failure of [gen] is one of the derived step. *)
Lemma gen_wrong_arity_counterexample :
  (exists err, gen_value tuple4_json = Fail (ErrUnmarshal err)) /\
  (exists err, gen_value tuple6_json = Fail (ErrUnmarshal err)) /\
  ~ (exists e, gen_value tuple4_json = Fail e /\
               gen_error_kind e = MalformedInstructionTuple) /\
  ~ (exists e, gen_value tuple6_json = Fail e /\
               gen_error_kind e = MalformedInstructionTuple).
Proof.
  assert (H4 : gen_value tuple4_json
               = Fail (ErrUnmarshal (SemanticError "[5]string" KArray "too few array elements")))
    by (vm_compute; reflexivity).
  assert (H6 : gen_value tuple6_json
               = Fail (ErrUnmarshal (SemanticError "[5]string" KArray "too many array elements")))
    by (vm_compute; reflexivity).
  split; [eauto | split; [eauto | split]].
  - intros (e & He & Hk). rewrite H4 in He. by injection He as <-.
  - intros (e & He & Hk). rewrite H6 in He. by injection He as <-.
Qed.

(** C6, as the code has it — the shape of the record: [gen] fails with a
    schema mismatch exactly on the JSON values that have not the shape of
    the record, that is, in which a member of a known name, where present,
    is of the wrong JSON type, or an instruction tuple is not of five
    elements. No member is required: taking a member away from an object of
    that shape leaves an object of that shape, and a field without a member
    is decoded to its zero value. *)
Theorem unmarshal_schema_mismatch (j : json) :
  ((exists e, gen_value j = Fail e /\ gen_error_kind e = SchemaMismatch) <->
   accepts X86.t j = false) /\
  (forall (m : gmap string json) (k : string),
     j = JObject m ->
     accepts X86.t j = true ->
     accepts X86.t (JObject (delete k m)) = true) /\
  (forall (m : gmap string json) (x : X86.t),
     j = JObject m ->
     unmarshal j = Ret x ->
     (m !! "architectures" = None -> X86.Architectures x = nil_slice) /\
     (m !! "extensions" = None -> X86.Extensions x = nil_slice) /\
     (m !! "attributes" = None -> X86.Attributes x = nil_slice) /\
     (m !! "specialRegs" = None -> X86.SpecialRegs x = nil_slice) /\
     (m !! "shortcuts" = None -> X86.Shortcuts x = nil_slice) /\
     (m !! "registers" = None -> X86.Register x = None) /\
     (m !! "instructions" = None -> X86.Instructions x = nil_slice)).
Proof.
  split; [|split].
  - rewrite <- unmarshal_accepts. split.
    + intros (e & He & _). apply gen_value_Fail in He as (err & Herr & _).
      by rewrite Herr.
    + intros Hu. destruct (not_Ret_Fail _ Hu (unmarshal_no_panic _)) as [err Herr].
      exists (ErrUnmarshal err). split; [|done]. apply gen_value_Fail. eauto.
  - intros m k -> Hshape. simpl in *.
    repeat match type of Hshape with
           | _ && _ = true => apply andb_true_iff in Hshape as [Hshape ?]
           end.
    repeat (apply andb_true_iff; split); by apply member_ok_delete.
  - intros m x -> Hx.
    apply unmarshal_X86_fields in Hx as (H1 & H2 & H3 & H4 & H5 & H6 & H7).
    unfold field in *.
    repeat split; intros Hnone;
      match goal with
      | Hf : match m !! ?k with _ => _ end = _, Hn : m !! ?k = None |- _ =>
          rewrite Hn in Hf; by injection Hf as <-
      end.
Qed.

(** C6, as stated, fails: an object that holds [architectures] and none of
    the other members is decoded without error, the fields without a member
    being left at their zero value. *)
Lemma unmarshal_schema_mismatch_counterexample :
  (exists m : gmap string json,
     no_instructions_json = JObject m /\
     m !! "extensions" = None /\ m !! "attributes" = None /\
     m !! "specialRegs" = None /\ m !! "shortcuts" = None /\
     m !! "registers" = None) /\
  unmarshal no_instructions_json
  = Ret (X86.mk (Slice ["X86"%string]) nil_slice nil_slice nil_slice nil_slice
                None nil_slice) /\
  ~ (exists e, gen_value no_instructions_json = Fail e).
Proof.
  assert (Hu : unmarshal no_instructions_json
               = Ret (X86.mk (Slice ["X86"%string]) nil_slice nil_slice nil_slice
                             nil_slice None nil_slice))
    by (vm_compute; reflexivity).
  split; [|split; [done|]].
  - eexists. split; [reflexivity|]. repeat split; vm_compute; reflexivity.
  - intros (e & He). rewrite (gen_value_Ret _ _ Hu) in He. done.
Qed.

(** ** More on the extractor *)

Section ParseMore.
Implicit Types buf data pre suf rest tail : bytes.

(** A separator absent from a byte string is absent from what begins it. *)
Lemma Contains_app_false_l (x y sep : bytes) :
  Contains (x ++ y) sep = false -> Contains x sep = false.
Proof.
  intros Hxy. destruct (Contains x sep) eqn:Hx; [|done].
  apply Contains_occurs in Hx as (l & r & ->).
  rewrite <- !(assoc app) in Hxy. by rewrite Contains_app_sep in Hxy.
Qed.

Lemma parse_no_panic (r : Reader) : parse r ≠ Panic.
Proof.
  destruct r as [buf [e|]]; unfold parse; simpl; [done|].
  rewrite parse_buf_unfold. cbv zeta.
  destruct (_ <? 0); [done|]. destruct (drop _ buf); [done|]. by destruct (_ <=? 0).
Qed.

Lemma len_markJSONBegin : len (bytes_of markJSONBegin) = 16.
Proof. reflexivity. Qed.

Lemma len_markJSONEnd : len (bytes_of markJSONEnd) = 14.
Proof. reflexivity. Qed.
End ParseMore.

(** X1 — what [parse] returns never contains the end marker: the slice
    stops one byte before the first instance of it. *)
Theorem parse_result_free_of_end (buf data : bytes) :
  parse (NewReader buf) = Ret data ->
  Contains data (bytes_of markJSONEnd) = false.
Proof.
  rewrite parse_NewReader, parse_buf_Ret.
  intros (pre & c1 & c2 & suf & _ & _ & Hfree).
  by apply Contains_app_false_l in Hfree.
Qed.

Lemma parse_result_free_of_end_witness :
  Contains (bytes_of "{}") (bytes_of markJSONEnd) = false.
Proof.
  apply (parse_result_free_of_end
           (bytes_of "prefix" ++ nl :: bytes_of markJSONBegin ++ nl ::
            bytes_of "{}" ++ nl :: bytes_of markJSONEnd ++ nl :: bytes_of "suffix")).
  vm_compute. reflexivity.
Defined.

(** X2 — what follows the first end marker is not looked at: once [parse]
    returns [data] on an input, it returns [data] on that input followed
    by any bytes, further markers included. *)
Theorem parse_stable_under_append (buf data tail : bytes) :
  parse (NewReader buf) = Ret data ->
  parse (NewReader (buf ++ tail)) = Ret data.
Proof.
  rewrite !parse_NewReader, !parse_buf_Ret.
  intros (pre & c1 & c2 & suf & -> & Hpre & Hfree).
  exists pre, c1, c2, (suf ++ tail). split; [|done].
  repeat (rewrite <- app_assoc || rewrite <- app_comm_cons). reflexivity.
Qed.

Lemma parse_stable_under_append_witness :
  parse (NewReader ((bytes_of markJSONBegin ++ nl :: bytes_of "{}" ++
                     nl :: bytes_of markJSONEnd) ++
                    bytes_of markJSONBegin ++ nl :: bytes_of "[]" ++
                     nl :: bytes_of markJSONEnd))
  = Ret (bytes_of "{}").
Proof.
  apply parse_stable_under_append. vm_compute. reflexivity.
Defined.

(** X3 — what precedes the first begin marker is not looked at either:
    with or without a stretch free of the begin marker in front of it, an
    input gives the same slice or the same error. *)
Theorem parse_prefix_irrelevant (pre rem : bytes) :
  Contains pre (bytes_of markJSONBegin) = false ->
  parse (NewReader (pre ++ bytes_of markJSONBegin ++ rem))
  = parse (NewReader (bytes_of markJSONBegin ++ rem)).
Proof.
  intros Hpre. rewrite !parse_NewReader.
  rewrite parse_buf_begin by done.
  by rewrite <- (app_nil_l (bytes_of markJSONBegin ++ rem)), parse_buf_begin.
Qed.

Lemma parse_prefix_irrelevant_witness :
  parse (NewReader (bytes_of "module.exports = " ++ bytes_of markJSONBegin ++
                    nl :: bytes_of "{}" ++ nl :: bytes_of markJSONEnd))
  = parse (NewReader (bytes_of markJSONBegin ++
                      nl :: bytes_of "{}" ++ nl :: bytes_of markJSONEnd)).
Proof.
  apply (parse_prefix_irrelevant (bytes_of "module.exports = ")).
  vm_compute. reflexivity.
Defined.

(** X4 — the errors of [parse] and the values they carry: a read error is
    reported whatever was read; otherwise the failed split always reports
    one piece, the empty remainder length 0, and the missing end marker the
    text that follows the first begin marker less its first byte. *)
Theorem parse_error_values (r : Reader) (e : parse_error) :
  parse r = Fail e ->
  (exists err, ReadAll_err r = Some err /\ e = ErrReadAll err) \/
  (ReadAll_err r = None /\
   (e = ErrSplit markJSONBegin 1 \/
    e = ErrDataLength 0 \/
    exists pre c rest,
      ReadAll_buf r = pre ++ bytes_of markJSONBegin ++ c :: rest /\
      Contains pre (bytes_of markJSONBegin) = false /\
      e = ErrFind markJSONEnd rest)).
Proof.
  destruct r as [buf [err|]]; unfold parse; simpl.
  - intros [= <-]. left. eauto.
  - intros He. right. split; [done|].
    destruct (begin_marker_cases buf) as [Hb|(pre & rem & -> & Hpre)].
    + rewrite parse_buf_no_begin in He by done. left. by injection He as <-.
    + rewrite parse_buf_begin in He by done.
      destruct rem as [|c rest]; [right; left; by injection He as <-|].
      destruct (_ <=? 0); [|done].
      right; right. exists pre, c, rest. by injection He as <-.
Qed.

Lemma parse_error_values_witness :
  (exists err, ReadAll_err (NewReader (bytes_of "no marker")) = Some err /\
               ErrSplit markJSONBegin 1 = ErrReadAll err) \/
  (ReadAll_err (NewReader (bytes_of "no marker")) = None /\
   (ErrSplit markJSONBegin 1 = ErrSplit markJSONBegin 1 \/
    ErrSplit markJSONBegin 1 = ErrDataLength 0 \/
    exists pre c rest,
      ReadAll_buf (NewReader (bytes_of "no marker"))
      = pre ++ bytes_of markJSONBegin ++ c :: rest /\
      Contains pre (bytes_of markJSONBegin) = false /\
      ErrSplit markJSONBegin 1 = ErrFind markJSONEnd rest)).
Proof.
  apply (parse_error_values (NewReader (bytes_of "no marker"))).
  vm_compute. reflexivity.
Defined.

(** X5 — the slice [parse] returns is shorter than the input by the two
    markers and the two trimmed bytes at least, that is by 32 bytes. *)
Theorem parse_length_bound (buf data : bytes) :
  parse (NewReader buf) = Ret data ->
  len data + 32 <= len buf.
Proof.
  rewrite parse_NewReader, parse_buf_Ret.
  intros (pre & c1 & c2 & suf & -> & _ & _).
  rewrite len_app, len_app, len_cons, len_app, len_cons, len_app.
  rewrite len_markJSONBegin, len_markJSONEnd.
  pose proof (len_nonneg pre). pose proof (len_nonneg suf). lia.
Qed.

Lemma parse_length_bound_witness :
  len (bytes_of "{}") + 32
  <= len (bytes_of markJSONBegin ++ nl :: bytes_of "{}" ++ nl :: bytes_of markJSONEnd).
Proof.
  apply parse_length_bound. vm_compute. reflexivity.
Defined.

(** ** The pipeline as a whole *)

Section PipelineFacts.
Variable asmdbX86 : FS.
Variable ReadValue : bytes -> string + json.

(** The four ways [gen] goes, stage by stage. *)
Lemma gen_cases :
  (exists err, asmdbX86 asmdbX86DataJS = inl err /\
               gen asmdbX86 ReadValue = Fail (ErrOpen asmdbX86DataJS err)) \/
  (exists fsX86 err, asmdbX86 asmdbX86DataJS = inr fsX86 /\
                     parse fsX86 = Fail err /\
                     gen asmdbX86 ReadValue = Fail (ErrParse err)) \/
  (exists fsX86 data msg, asmdbX86 asmdbX86DataJS = inr fsX86 /\
                          parse fsX86 = Ret data /\
                          ReadValue data = inl msg /\
                          gen asmdbX86 ReadValue = Fail (ErrUnmarshal (SyntacticError msg))) \/
  (exists fsX86 data j, asmdbX86 asmdbX86DataJS = inr fsX86 /\
                        parse fsX86 = Ret data /\
                        ReadValue data = inr j /\
                        gen asmdbX86 ReadValue = gen_value j).
Proof.
  unfold gen. destruct (asmdbX86 asmdbX86DataJS) as [err|fsX86]; [left; eauto|].
  right. pose proof (parse_no_panic fsX86) as Hnp.
  destruct (parse fsX86) as [data|err|] eqn:Hparse; simpl; [|left; eauto 6|done].
  right. destruct (ReadValue data) as [msg|j] eqn:Hread; [left | right].
  - by exists fsX86, data, msg.
  - by exists fsX86, data, j.
Qed.

(** On a value [gen] returns what it prints, or the error of the decode. *)
Lemma gen_value_cases (j : json) :
  (exists x86Asm : X86.t,
     unmarshal j = Ret x86Asm /\
     gen_value j = Ret (mkPrinted (X86.set_Instructions nil_slice x86Asm)
                                  (Instruction_of_tuple <$> elems (X86.Instructions x86Asm)))) \/
  (exists err, unmarshal (T:=X86.t) j = Fail err /\ gen_value j = Fail (ErrUnmarshal err)).
Proof.
  pose proof (unmarshal_no_panic (T:=X86.t) j) as Hnp.
  destruct (unmarshal (T:=X86.t) j) as [x|err|] eqn:Hu; [left|right|done].
  - exists x. split; [done|]. by apply gen_value_Ret.
  - exists err. split; [done|]. apply gen_value_Fail. eauto.
Qed.
End PipelineFacts.

(** X6 — [gen] succeeds exactly when the embedded file opens, [parse]
    extracts a payload from it, the payload reads as a JSON value and the
    value decodes into a record; it then prints that record, its
    instructions cleared, and the instructions mapped from the tuples the
    record held. *)
Theorem gen_success (asmdbX86 : FS) (ReadValue : bytes -> string + json) (p : printed) :
  gen asmdbX86 ReadValue = Ret p <->
  exists (fsX86 : Reader) (data : bytes) (j : json) (x86Asm : X86.t),
    asmdbX86 asmdbX86DataJS = inr fsX86 /\
    parse fsX86 = Ret data /\
    ReadValue data = inr j /\
    unmarshal j = Ret x86Asm /\
    p = mkPrinted (X86.set_Instructions nil_slice x86Asm)
                  (Instruction_of_tuple <$> elems (X86.Instructions x86Asm)).
Proof.
  split.
  - intros Hg.
    destruct (gen_cases asmdbX86 ReadValue)
      as [(err & _ & Hf)|[(fs & err & _ & _ & Hf)|[(fs & data & msg & _ & _ & _ & Hf)
          |(fs & data & j & Hopen & Hparse & Hread & Hv)]]];
      try (rewrite Hf in Hg; discriminate).
    rewrite Hv in Hg.
    destruct (gen_value_cases j) as [(x & Hu & Hr)|(err & _ & Hf)];
      [|rewrite Hf in Hg; discriminate].
    rewrite Hr in Hg. injection Hg as <-. by exists fs, data, j, x.
  - intros (fs & data & j & x & Hopen & Hparse & Hread & Hu & ->).
    rewrite (gen_reads _ _ _ _ _ Hopen Hparse Hread). by apply gen_value_Ret.
Qed.


(** X8 — [main] never dies of a run-time panic: it exits with status 0 or
    1, and with 0 exactly when the embedded file opens, [parse] extracts a
    payload, the payload reads as a JSON value and the value has the shape
    of the record. *)
Theorem main_exit_status (asmdbX86 : FS) (ReadValue : bytes -> string + json) :
  (main asmdbX86 ReadValue = 0 \/ main asmdbX86 ReadValue = 1) /\
  (main asmdbX86 ReadValue = 0 <->
   exists (fsX86 : Reader) (data : bytes) (j : json),
     asmdbX86 asmdbX86DataJS = inr fsX86 /\
     parse fsX86 = Ret data /\
     ReadValue data = inr j /\
     accepts X86.t j = true).
Proof.
  unfold main.
  destruct (gen_cases asmdbX86 ReadValue)
    as [(err & Hopen & Hf)|[(fs & err & Hopen & Hparse & Hf)
        |[(fs & data & msg & Hopen & Hparse & Hread & Hf)
        |(fs & data & j & Hopen & Hparse & Hread & Hv)]]].
  - rewrite Hf. split; [by right|]. split; [done|].
    intros (? & ? & ? & ? & _). congruence.
  - rewrite Hf. split; [by right|]. split; [done|].
    intros (? & ? & ? & ? & ? & _). congruence.
  - rewrite Hf. split; [by right|]. split; [done|].
    intros (? & ? & ? & ? & ? & ? & _). congruence.
  - rewrite Hv.
    destruct (gen_value_cases j) as [(x & Hu & ->)|(err & Hu & ->)].
    + split; [by left|]. split; [|done]. intros _. exists fs, data, j.
      rewrite <- unmarshal_accepts, Hu. done.
    + split; [by right|]. split; [done|].
      intros (fs' & data' & j' & Hopen' & Hparse' & Hread' & Hshape).
      assert (fs' = fs) as -> by congruence.
      assert (data' = data) as -> by congruence.
      assert (j' = j) as -> by congruence.
      rewrite <- unmarshal_accepts, Hu in Hshape. done.
Qed.

(** ** More on the derived instructions and the decoded record *)

Lemma Instruction_of_tuple_inj : Inj (=) (=) Instruction_of_tuple.
Proof.
  intros [] []. unfold Instruction_of_tuple. simpl. intros [=]. by subst.
Qed.

Lemma Instruction_of_tuple_fmap_inj (l k : list (array5 string)) :
  Instruction_of_tuple <$> l = Instruction_of_tuple <$> k -> l = k.
Proof. apply (list_fmap_eq_inj _ Instruction_of_tuple_inj). Qed.

(** Each field of [X86] is decoded from the member of its own name. *)
Lemma unmarshal_X86_members (m m' : gmap string json) :
  (forall name, name ∈ X86_names -> m !! name = m' !! name) ->
  unmarshal (T:=X86.t) (JObject m) = unmarshal (JObject m').
Proof.
  intros Hsame. simpl. unfold field.
  rewrite !Hsame by (unfold X86_names; set_solver). reflexivity.
Qed.

(** X9 — the derived step loses nothing: two records from which [gen]
    derives the same instructions hold the same tuples, in the same order. *)
Theorem derive_lossless (x x' : X86.t) (p p' : printed) :
  gen_derive x = Ret p ->
  gen_derive x' = Ret p' ->
  printed_insts p = printed_insts p' ->
  elems (X86.Instructions x) = elems (X86.Instructions x').
Proof.
  rewrite !gen_derive_Ret. intros [= <-] [= <-]. simpl.
  apply Instruction_of_tuple_fmap_inj.
Qed.

Lemma derive_lossless_witness :
  elems (X86.Instructions scenario_x86)
  = elems (X86.Instructions
             (X86.mk nil_slice nil_slice nil_slice nil_slice nil_slice None
                     (Slice [Array5 "mov" "r,r" "RM" "0x89" ""]%string))).
Proof.
  apply (derive_lossless scenario_x86
           (X86.mk nil_slice nil_slice nil_slice nil_slice nil_slice None
                   (Slice [Array5 "mov" "r,r" "RM" "0x89" ""]%string))
           (mkPrinted (X86.set_Instructions nil_slice scenario_x86)
                      [X86Instruction.mk "mov" "r,r" "RM" "0x89" ""])
           (mkPrinted X86_zero [X86Instruction.mk "mov" "r,r" "RM" "0x89" ""]));
    vm_compute; reflexivity.
Defined.

(** X10 — a nil list of instructions and an empty one are printed alike:
    [gen] clears the field to nil in both cases and derives the same empty,
    non-nil list of instructions. *)
Theorem gen_derive_nil_or_empty (x : X86.t) :
  gen_derive (X86.set_Instructions (Slice []) x)
  = gen_derive (X86.set_Instructions nil_slice x) /\
  gen_derive (X86.set_Instructions nil_slice x)
  = Ret (mkPrinted (X86.set_Instructions nil_slice x) []).
Proof. rewrite !gen_derive_Ret. by destruct x. Qed.

(** X11 — members of other names are ignored: adding to a JSON object a
    member whose name is none of the seven JSON names of the fields of
    [X86], compared letter for letter, changes neither the decoded record
    nor what [gen] does with it. *)
Theorem gen_value_ignores_unknown (m : gmap string json) (k : string) (v : json) :
  k ∉ X86_names ->
  unmarshal (T:=X86.t) (JObject (<[k:=v]> m)) = unmarshal (JObject m) /\
  gen_value (JObject (<[k:=v]> m)) = gen_value (JObject m).
Proof.
  intros Hk.
  assert (Hu : unmarshal (T:=X86.t) (JObject (<[k:=v]> m)) = unmarshal (JObject m)).
  { apply unmarshal_X86_members. intros name Hname.
    apply lookup_insert_ne. by intros ->. }
  split; [done|]. unfold gen_value. by rewrite Hu.
Qed.

Lemma gen_value_ignores_unknown_witness :
  unmarshal (T:=X86.t)
    (JObject (<["Architectures" := JArray [JString "ARM"]]>
                {["architectures" := JArray [JString "X86"]]}))
  = unmarshal (JObject {["architectures" := JArray [JString "X86"]]}) /\
  gen_value (JObject (<["Architectures" := JArray [JString "ARM"]]>
                        {["architectures" := JArray [JString "X86"]]}))
  = gen_value (JObject {["architectures" := JArray [JString "X86"]]}).
Proof.
  apply gen_value_ignores_unknown.
  apply (bool_decide_eq_false_1 ("Architectures" ∈ X86_names)). vm_compute. reflexivity.
Defined.

(** X12 — null is as good as nothing: a member that is JSON null, whatever
    its name, gives the same record and the same outcome of [gen] as the
    object without that member. *)
Theorem gen_value_null_member (m : gmap string json) (k : string) :
  unmarshal (T:=X86.t) (JObject (<[k:=JNull]> m)) = unmarshal (JObject (delete k m)) /\
  gen_value (JObject (<[k:=JNull]> m)) = gen_value (JObject (delete k m)).
Proof.
  assert (Hu : unmarshal (T:=X86.t) (JObject (<[k:=JNull]> m))
               = unmarshal (JObject (delete k m))).
  { simpl. unfold field.
    rewrite !lookup_insert, !lookup_delete.
    by repeat (destruct (decide (k = _)) as [->|?]; simpl). }
  split; [done|]. unfold gen_value. by rewrite Hu.
Qed.


